(** * Smart-Board backend: the card recommendation engine

    A shallow embedding of [src/utils/recommendations.js] (the rule based
    analysis of a card) and of the Gemini adapter
    ([getAISuggestions] / [getCardInsights]), with the properties the
    specification states about them; and of the request handlers that
    serve the analysis ([checkBoardAccess], [getCardRecommendations],
    [getCardRecommendationsInBoard]).

    Conventions of the embedding.
    - A JavaScript string is a [string]; each character stands for one code
      unit in the range U+0000..U+00FF, and the built-ins ([toLowerCase],
      the classes [\w], [\s], [\d]) are written out for that range.
    - [undefined] is [None]; a value that may be [null] is an [option].
    - A number that the code obtains by dividing two set sizes is an exact
      rational ([Qc]), and so is a threshold; the IEEE rounding of the
      quotient is not modelled. Other numbers are integers ([Z]).
    - [new Date()] reads the clock: the reading is an explicit argument.
    - What awaiting a database query gives is a parameter of the handlers:
      a document, null, or a rejection with the [kind] of its error. *)

From Stdlib Require Import ZArith QArith Qcanon Ascii String Lia.
From stdpp Require Import base numbers list sorting gmap sets strings.

Local Open Scope Z_scope.

(** ** JavaScript built-ins used by the sources *)
Module JS.

(** *** Characters and character classes *)

Definition code (c : ascii) : nat := nat_of_ascii c.

Definition between (lo hi : nat) (c : ascii) : bool :=
  ((lo <=? code c) && (code c <=? hi))%nat.

(** [\d] *)
Definition is_digit (c : ascii) : bool := between 48 57 c.

(** [\w] is [A-Za-z0-9_] *)
Definition is_word (c : ascii) : bool :=
  is_digit c || between 65 90 c || between 97 122 c || (code c =? 95)%nat.

(** [\s] below U+0100: TAB, LF, VT, FF, CR, space and NBSP *)
Definition is_space (c : ascii) : bool :=
  between 9 13 c || (code c =? 32)%nat || (code c =? 160)%nat.

(** the characters a lower-cased token can be made of: [a-z0-9_] *)
Definition is_lower_word (c : ascii) : bool :=
  is_digit c || between 97 122 c || (code c =? 95)%nat.

(** [String.prototype.toLowerCase] on one code unit below U+0100: A-Z and
    the Latin-1 capitals U+00C0..U+00DE (U+00D7, the multiplication sign,
    is not a letter) move up by 32. *)
Definition lower_char (c : ascii) : ascii :=
  if between 65 90 c || (between 192 222 c && negb (code c =? 215)%nat)
  then ascii_of_nat (code c + 32)
  else c.

(** *** Strings *)

Fixpoint string_map (f : ascii → ascii) (s : string) : string :=
  match s with
  | EmptyString => EmptyString
  | String c s' => String (f c) (string_map f s')
  end.

Fixpoint string_forall (p : ascii → bool) (s : string) : bool :=
  match s with
  | EmptyString => true
  | String c s' => p c && string_forall p s'
  end.

Definition toLowerCase (s : string) : string := string_map lower_char s.

(** [s.startsWith(p)] *)
Fixpoint starts_with (p s : string) : bool :=
  match p, s with
  | EmptyString, _ => true
  | String a p', String b s' => bool_decide (a = b) && starts_with p' s'
  | String _ _, EmptyString => false
  end.

(** [s.includes(sub)] *)
Fixpoint includes (s sub : string) : bool :=
  starts_with sub s ||
  match s with
  | EmptyString => false
  | String _ s' => includes s' sub
  end.

(** [s.replace(/[^\w\s]/g, ' ')] *)
Definition replace_non_word (s : string) : string :=
  string_map (λ c, if is_word c || is_space c then c else " "%char) s.

(** [s.split(/\s+/)]: the pieces between the maximal runs of white space.
    As in JavaScript a leading or a trailing run leaves an empty piece, and
    the empty string splits into one empty piece. *)
Fixpoint split_ws (s : string) : list string :=
  match s with
  | EmptyString => [EmptyString]
  | String c s' =>
      if is_space c then
        match s' with
        | String c' _ => if is_space c' then split_ws s' else EmptyString :: split_ws s'
        | EmptyString => EmptyString :: split_ws s'
        end
      else
        match split_ws s' with
        | p :: ps => String c p :: ps
        | [] => [String c EmptyString]
        end
  end.

(** does [s] start with white space *)
Definition head_space (s : string) : bool :=
  match s with
  | String c _ => is_space c
  | EmptyString => false
  end.

(** a string is falsy exactly when it is empty *)
Definition truthy (s : string) : bool :=
  match s with EmptyString => false | String _ _ => true end.

(** a template literal prints [undefined] as the word "undefined" *)
Definition interpolate (v : option string) : string :=
  match v with
  | Some s => s
  | None => "undefined"
  end.

(** *** Arrays *)

(** [arr.slice(0, end)] for an integral [end]: a negative [end] counts
    from the end of the array. *)
Definition slice0 {A} (limit : Z) (l : list A) : list A :=
  if 0 <=? limit then take (Z.to_nat limit) l
  else take (Z.to_nat (Z.of_nat (length l) + limit)) l.

(** [arr.sort(cmp)] is stable: [a] stays before [b] unless [cmp a b > 0].
    The comparator of the sources returns a difference of two scores. *)
Fixpoint sort_insert {A} (cmp : A → A → Qc) (x : A) (l : list A) : list A :=
  match l with
  | [] => [x]
  | y :: l' =>
      if decide (0 < cmp x y)%Qc then y :: sort_insert cmp x l' else x :: l
  end.

Definition sort {A} (cmp : A → A → Qc) (l : list A) : list A :=
  foldr (sort_insert cmp) [] l.

(** *** Dates

    A [Date] holds a time value: milliseconds since the epoch in UTC, or
    NaN ([None], an Invalid Date). Local time is UTC shifted by a constant
    offset [tza]; daylight saving changes are outside the model. Numbers
    that a date operation receives are integers or NaN ([option Z]). *)

Definition Date : Type := option Z.

Definition msPerDay : Z := 86400000.
Definition maxTime : Z := 8640000000000000.

Definition TimeClip (t : Z) : Date :=
  if Z.abs t <=? maxTime then Some t else None.

Definition Day (t : Z) : Z := t / msPerDay.
Definition TimeWithinDay (t : Z) : Z := t mod msPerDay.
Definition WeekDay (t : Z) : Z := (Day t + 4) mod 7.

(** The civil calendar (proleptic Gregorian), by eras of 400 years that
    start on 1 March: [doe] is the day of the era (0..146096), [yoe] the
    year of the era (0..399), [doy] the day of the year counted from
    1 March (0..365). *)
Definition yoe_of_doe (doe : Z) : Z :=
  (doe - doe / 1460 + doe / 36524 - doe / 146096) / 365.

Definition doy_of_doe (doe : Z) : Z :=
  let yoe := yoe_of_doe doe in
  doe - (365 * yoe + yoe / 4 - yoe / 100).

(** month 1..12 and day of the month 1..31 of a day of the year *)
Definition month_of_doy (doy : Z) : Z :=
  let mp := (5 * doy + 2) / 153 in
  if mp <? 10 then mp + 3 else mp - 9.

Definition day_of_doy (doy : Z) : Z :=
  let mp := (5 * doy + 2) / 153 in
  doy - (153 * mp + 2) / 5 + 1.

(** the day of the year on which month [m] (1..12) starts *)
Definition doy_of_month (m : Z) : Z :=
  (153 * (if 2 <? m then m - 3 else m + 9) + 2) / 5.

(** the civil date (year, month 1..12, day 1..31) of a day number *)
Definition civil_from_days (z : Z) : Z * Z * Z :=
  let z := z + 719468 in
  let era := z / 146097 in
  let doe := z - era * 146097 in
  let m := month_of_doy (doy_of_doe doe) in
  (yoe_of_doe doe + era * 400 + (if m <=? 2 then 1 else 0),
   m, day_of_doy (doy_of_doe doe)).

(** the day number of the first day of month [m] (1..12) of year [y] *)
Definition days_from_civil (y m : Z) : Z :=
  let y := if m <=? 2 then y - 1 else y in
  let era := y / 400 in
  let yoe := y - era * 400 in
  let doe := yoe * 365 + yoe / 4 - yoe / 100 + doy_of_month m in
  era * 146097 + doe - 719468.

Definition YearFromTime (t : Z) : Z := (civil_from_days (Day t)).1.1.
(** months count from 0 *)
Definition MonthFromTime (t : Z) : Z := (civil_from_days (Day t)).1.2 - 1.
Definition DateFromTime (t : Z) : Z := (civil_from_days (Day t)).2.

(** [MakeDay(year, month, date)]: the first day of the month, which may lie
    outside 0..11 and then carries into the year, plus [date - 1]. *)
Definition MakeDay (year month date : Z) : Z :=
  days_from_civil (year + month / 12) (month mod 12 + 1) + date - 1.

Definition MakeDate (day time : Z) : Z := day * msPerDay + time.

(** [new Date()] at clock reading [clock], and [new Date(value)] *)
Definition Date_now (clock : Z) : Date := TimeClip clock.
Definition Date_of_value (v : option Z) : Date := v ≫= TimeClip.

Section LocalTime.
Variable tza : Z.

Definition LocalTime (t : Z) : Z := t + tza.
Definition UTC (t : Z) : Z := t - tza.

Definition getTime (d : Date) : option Z := d.
Definition getDay (d : Date) : option Z := t ← d; Some (WeekDay (LocalTime t)).
Definition getDate (d : Date) : option Z := t ← d; Some (DateFromTime (LocalTime t)).
Definition getMonth (d : Date) : option Z := t ← d; Some (MonthFromTime (LocalTime t)).

(** [d.setDate(date)] *)
Definition setDate (d : Date) (date : option Z) : Date :=
  t ← d; dt ← date;
  let t := LocalTime t in
  TimeClip (UTC (MakeDate (MakeDay (YearFromTime t) (MonthFromTime t) dt)
                          (TimeWithinDay t))).

(** [d.setMonth(month)] *)
Definition setMonth (d : Date) (month : option Z) : Date :=
  t ← d; m ← month;
  let t := LocalTime t in
  TimeClip (UTC (MakeDate (MakeDay (YearFromTime t) m (DateFromTime t))
                          (TimeWithinDay t))).

(** [d.setHours(23, 59, 59, 999)] *)
Definition setHours_end_of_day (d : Date) : Date :=
  t ← d;
  let t := LocalTime t in
  TimeClip (UTC (MakeDate (Day t) 86399999)).
End LocalTime.

(** [a + b] on numbers that may be NaN *)
Definition num_add (a b : option Z) : option Z := x ← a; y ← b; Some (x + y).

(** [a !== b] on numbers: NaN differs from every number, itself included *)
Definition num_neq (a b : option Z) : bool :=
  match a, b with
  | Some x, Some y => negb (x =? y)
  | _, _ => true
  end.

(** *** The two regular expressions of the date parser *)

(** the longest prefix of digits, and what follows it *)
Fixpoint span_digits (s : string) : string * string :=
  match s with
  | EmptyString => (EmptyString, EmptyString)
  | String c s' =>
      if is_digit c then
        let '(ds, rest) := span_digits s' in (String c ds, rest)
      else (EmptyString, s)
  end.

Fixpoint string_drop (n : nat) (s : string) : string :=
  match n, s with
  | O, _ => s
  | S n', String _ s' => string_drop n' s'
  | S _, EmptyString => EmptyString
  end.

(** [/in (\d+) <unit>s?/] anchored at the start of [s]: the digits captured.
    The digits are followed by a space, so [\d+] takes the whole run; the
    optional [s] never decides whether there is a match. *)
Definition match_in_here (unit s : string) : option string :=
  if starts_with "in " s then
    let '(ds, rest) := span_digits (string_drop 3 s) in
    if truthy ds && starts_with (" " +:+ unit) rest then Some ds else None
  else None.

(** [s.match(/in (\d+) <unit>s?/)]: the capture of the leftmost match *)
Fixpoint match_in (unit s : string) : option string :=
  match match_in_here unit s with
  | Some ds => Some ds
  | None =>
      match s with
      | EmptyString => None
      | String _ s' => match_in unit s'
      end
  end.

(** [parseInt] on a string of decimal digits. The value is exact: a count
    of days that IEEE rounding would change (above 2^53) is far beyond the
    range of time values, and gives an Invalid Date either way. *)
Definition digit_value (c : ascii) : Z := Z.of_nat (code c) - 48.

Fixpoint parseInt_from (acc : Z) (s : string) : Z :=
  match s with
  | EmptyString => acc
  | String c s' => parseInt_from (10 * acc + digit_value c) s'
  end.

Definition parseInt (s : string) : Z := parseInt_from 0 s.

End JS.

(** ** [src/utils/recommendations.js] *)
Module Recommendations.
Import JS.

(** *** Word sets and their similarity *)

Definition stopWords : gset string :=
  list_to_set
    [ "a"; "an"; "and"; "are"; "as"; "at"; "be"; "by"; "for"; "from";
      "has"; "he"; "in"; "is"; "it"; "its"; "of"; "on"; "that"; "the";
      "to"; "was"; "will"; "with"; "this"; "but"; "they"; "have"; "had";
      "what"; "when"; "where"; "who"; "which"; "why"; "how" ].

Definition keep_word (word : string) : bool :=
  (2 <? String.length word)%nat && negb (bool_decide (word ∈ stopWords)).

Definition extractWords (text : option string) : gset string :=
  match text with
  | None => ∅
  | Some t =>
      if truthy t then
        let words :=
          filter (λ word, keep_word word = true)
                 (split_ws (replace_non_word (toLowerCase t))) in
        list_to_set words
      else ∅
  end.

Definition jaccardSimilarity (set1 set2 : gset string) : Qc :=
  let intersection : gset string := filter (λ x, x ∈ set2) set1 in
  let union := set1 ∪ set2 in
  if decide (size union = 0%nat) then 0%Qc
  else Q2Qc (Z.of_nat (size intersection) # Pos.of_nat (size union)).

(** *** The data the engine reads and returns

    A card and a list as the Mongoose schemas give them, cut down to the
    fields the engine reads. An id is the string that [toString()] makes
    of it. [title] and [description] may be undefined ([None]); a due date
    is a time value or null. *)

Module Card.
Record t := mk {
  _id : string;
  title : option string;
  description : option string;
  list : string;
  dueDate : option Z }.
End Card.

Module BoardList.
Record t := mk { _id : string; title : string }.
End BoardList.

Inductive Source := from_title | from_description.
Inductive Confidence := high | medium.

Record DateSuggestion := {
  date : Date;
  source : Source;
  confidence : Confidence;
  date_reason : string }.

Record ListSuggestion := {
  listId : string;
  listTitle : string;
  reason : string }.

Record CardSummary := {
  summary_id : string;
  summary_title : option string;
  summary_list : string;
  summary_dueDate : option Z }.

Record RelatedCard := { card : CardSummary; similarity : Qc }.

Record Tip := { icon : string; tip : string }.

Record Analysis := {
  suggestedDueDates : list DateSuggestion;
  suggestedListMovement : option ListSuggestion;
  relatedCards : list RelatedCard;
  smartTips : option (list Tip) }.

(** *** parseDateKeywords *)

Section Clock.
(** the offset of local time, and the clock reading of [new Date()] *)
Variable tza : Z.

(** the three statements most rules end with: copy [now], move the copy by
    [setDate(getDate() + days)], then [setHours(23, 59, 59, 999)] *)
Definition add_days (now : Date) (days : option Z) : Date :=
  let future := now in
  let future := setDate tza future (num_add (getDate tza future) days) in
  setHours_end_of_day tza future.

Definition parseDateKeywords (clock : Z) (text : option string) : option Date :=
  match text with
  | None => None
  | Some text =>
      if negb (truthy text) then None else
      let lowerText := toLowerCase text in
      let now := Date_now clock in
      if includes lowerText "today" then
        Some (Date_of_value (setHours_end_of_day tza now))
      else if includes lowerText "tomorrow" then
        Some (add_days now (Some 1))
      else if includes lowerText "next week" then
        Some (add_days now (Some 7))
      else if includes lowerText "this week" || includes lowerText "end of week"
              || includes lowerText "eow" then
        let endOfWeek := now in
        let daysUntilFriday :=
          g ← getDay tza endOfWeek; Some (Z.rem (5 - g + 7) 7) in
        let step :=
          d ← daysUntilFriday; Some (if d =? 0 then 7 else d) in
        Some (add_days endOfWeek step)
      else if includes lowerText "next month" then
        let nextMonth := now in
        let nextMonth :=
          setMonth tza nextMonth (num_add (getMonth tza nextMonth) (Some 1)) in
        Some (setHours_end_of_day tza nextMonth)
      else
        match match_in "day" lowerText with
        | Some inDaysMatch =>
            let days := parseInt inDaysMatch in
            Some (add_days now (Some days))
        | None =>
            match match_in "week" lowerText with
            | Some inWeeksMatch =>
                let weeks := parseInt inWeeksMatch in
                Some (add_days now (Some (weeks * 7)))
            | None => None
            end
        end
  end.
End Clock.

(** *** suggestListMovement *)

Record Pattern := {
  keywords : list string;
  listTitles : list string;
  pattern_reason : string }.

Definition listPatterns : list Pattern :=
  [ {| keywords := ["started"; "working on"; "in progress"; "doing"; "currently"];
       listTitles := ["in progress"; "doing"; "work in progress"; "wip"];
       pattern_reason := "Keywords suggest work has started" |};
    {| keywords := ["done"; "completed"; "finished"; "complete"];
       listTitles := ["done"; "completed"; "finished"];
       pattern_reason := "Keywords suggest task is completed" |};
    {| keywords := ["testing"; "test"; "review"; "qa"];
       listTitles := ["testing"; "review"; "qa"; "quality assurance"];
       pattern_reason := "Keywords suggest task needs testing/review" |};
    {| keywords := ["blocked"; "waiting"; "stuck"; "pending"];
       listTitles := ["blocked"; "waiting"; "on hold"];
       pattern_reason := "Keywords suggest task is blocked" |} ].

(** the text both matchers read: [`${card.title} ${card.description}`] *)
Definition card_text (c : Card.t) : string :=
  interpolate (Card.title c) +:+ " " +:+ interpolate (Card.description c).

Definition hasKeyword (text : string) (pattern : Pattern) : bool :=
  existsb (λ keyword, includes text keyword) (keywords pattern).

Definition title_matches (pattern : Pattern) (l : BoardList.t) : bool :=
  existsb (λ title, includes (toLowerCase (BoardList.title l)) title)
          (listTitles pattern).

(** the body of the loop over the patterns, for one pattern: the value
    returned from inside the loop, if any *)
Definition try_pattern (c : Card.t) (text : string) (allLists : list BoardList.t)
    (pattern : Pattern) : option ListSuggestion :=
  if hasKeyword text pattern then
    match List.find (title_matches pattern) allLists with
    | Some matchingList =>
        if negb (String.eqb (BoardList._id matchingList) (Card.list c)) then
          Some {| listId := BoardList._id matchingList;
                  listTitle := BoardList.title matchingList;
                  reason := pattern_reason pattern |}
        else None
    | None => None
    end
  else None.

Fixpoint scan_patterns (c : Card.t) (text : string) (allLists : list BoardList.t)
    (patterns : list Pattern) : option ListSuggestion :=
  match patterns with
  | [] => None
  | pattern :: rest =>
      match try_pattern c text allLists pattern with
      | Some suggestion => Some suggestion
      | None => scan_patterns c text allLists rest
      end
  end.

Definition suggestListMovement (c : Card.t) (allLists : list BoardList.t)
    : option ListSuggestion :=
  match allLists with
  | [] => None
  | _ =>
      let text := toLowerCase (card_text c) in
      scan_patterns c text allLists listPatterns
  end.

(** *** findRelatedCards *)

Definition summary_of (otherCard : Card.t) : CardSummary :=
  {| summary_id := Card._id otherCard;
     summary_title := Card.title otherCard;
     summary_list := Card.list otherCard;
     summary_dueDate := Card.dueDate otherCard |}.

Definition score (currentWords : gset string) (otherCard : Card.t) : RelatedCard :=
  let otherText := card_text otherCard in
  let otherWords := extractWords (Some otherText) in
  {| card := summary_of otherCard;
     similarity := jaccardSimilarity currentWords otherWords |}.

Definition by_similarity_desc (a b : RelatedCard) : Qc :=
  (similarity b - similarity a)%Qc.

Definition findRelatedCards (c : Card.t) (allCards : list Card.t)
    (limit : Z) (threshold : Qc) : list RelatedCard :=
  match allCards with
  | [] => []
  | _ =>
      let currentCardText := card_text c in
      let currentWords := extractWords (Some currentCardText) in
      if decide (size currentWords = 0%nat) then [] else
      let similarities :=
        slice0 limit
          (sort by_similarity_desc
             (filter (λ item, (threshold ≤ similarity item)%Qc)
                (score currentWords
                   <$> filter (λ o, Card._id o ≠ Card._id c) allCards))) in
      similarities
  end.

Definition default_limit : Z := 5.
Definition default_threshold : Qc := Q2Qc (1 # 5).

(** *** analyzeCard *)

Definition dq : string := String (ascii_of_nat 34) EmptyString.
Definition quoted (s : string) : string := dq +:+ s +:+ dq.

Definition extractDateReason (text : option string) : string :=
  let lowerText := from_option toLowerCase EmptyString text in
  if includes lowerText "tomorrow" then "Mentioned " +:+ quoted "tomorrow"
  else if includes lowerText "today" then "Mentioned " +:+ quoted "today"
  else if includes lowerText "next week" then "Mentioned " +:+ quoted "next week"
  else if includes lowerText "this week" || includes lowerText "end of week"
       then "Mentioned " +:+ quoted "this week"
  else if includes lowerText "next month" then "Mentioned " +:+ quoted "next month"
  else match match_in "day" lowerText with
       | Some n => "Mentioned " +:+ quoted ("in " +:+ n +:+ " days")
       | None =>
           match match_in "week" lowerText with
           | Some n => "Mentioned " +:+ quoted ("in " +:+ n +:+ " weeks")
           | None => "Based on card content"
           end
       end.

Definition generic_tips : list Tip :=
  [ {| icon := "💡";
       tip := "Add time keywords like " +:+ quoted "tomorrow" +:+ ", "
              +:+ quoted "next week" +:+ ", or " +:+ quoted "in 3 days"
              +:+ " to get due date suggestions" |};
    {| icon := "🎯";
       tip := "Use keywords like " +:+ quoted "started working" +:+ ", "
              +:+ quoted "completed" +:+ ", or " +:+ quoted "testing"
              +:+ " to get list movement suggestions" |};
    {| icon := "🔗";
       tip := "Create similar cards with related topics to see related card recommendations" |} ].

Definition is_empty {A} (l : list A) : bool :=
  match l with [] => true | _ => false end.

Section Analyze.
Variable tza : Z.
(** the clock readings of the two calls of [parseDateKeywords] *)
Variables clock_title clock_description : Z.

Definition title_suggestion (c : Card.t) (titleDate : option Date)
    : list DateSuggestion :=
  match titleDate with
  | Some d =>
      [ {| date := d; source := from_title; confidence := high;
           date_reason := extractDateReason (Card.title c) |} ]
  | None => []
  end.

Definition description_suggestion (c : Card.t)
    (titleDate descriptionDate : option Date) : list DateSuggestion :=
  match descriptionDate with
  | Some d =>
      if match titleDate with
         | None => true
         | Some t => num_neq (getTime d) (getTime t)
         end
      then [ {| date := d; source := from_description; confidence := medium;
                date_reason := extractDateReason (Card.description c) |} ]
      else []
  | None => []
  end.

Definition analyzeCard (c : Card.t) (boardCards : list Card.t)
    (boardLists : list BoardList.t) : Analysis :=
  let titleDate := parseDateKeywords tza clock_title (Card.title c) in
  let descriptionDate :=
    parseDateKeywords tza clock_description (Card.description c) in
  let dates :=
    title_suggestion c titleDate
    ++ description_suggestion c titleDate descriptionDate in
  let listSuggestion := suggestListMovement c boardLists in
  let related := findRelatedCards c boardCards default_limit default_threshold in
  {| suggestedDueDates := dates;
     suggestedListMovement := listSuggestion;
     relatedCards := related;
     smartTips :=
       if is_empty dates && negb (bool_decide (is_Some listSuggestion))
          && is_empty related
       then Some generic_tips else None |}.
End Analyze.

End Recommendations.

(** ** The Gemini adapter ([getAISuggestions], [getCardInsights]) *)
Module Gemini.
Import JS Recommendations.

(** A computation either returns or throws an [Error] with a message.
    What the code writes to the console is left out. *)
Inductive Result (A : Type) : Type :=
  | Return (a : A)
  | Throw (message : string).
Arguments Return {A} a.
Arguments Throw {A} message.

Definition bind {A B} (m : Result A) (k : A → Result B) : Result B :=
  match m with
  | Return a => k a
  | Throw e => Throw e
  end.

(** [try { body } catch (error) { handler }] *)
Definition try_catch {A} (body : Result A) (handler : string → Result A) : Result A :=
  match body with
  | Return a => Return a
  | Throw e => handler e
  end.

(** what awaiting [ai.models.generateContent] gives: a rejection, or a
    response whose [text] may be undefined *)
Inductive Response :=
  | Rejected (message : string)
  | Resolved (text : option string).

Definition open_brace : ascii := ascii_of_nat 123.
Definition close_brace : ascii := ascii_of_nat 125.

(** the suffix of [s] that starts at its first opening brace *)
Fixpoint from_first_open (s : string) : option string :=
  match s with
  | EmptyString => None
  | String c s' =>
      if bool_decide (c = open_brace) then Some s else from_first_open s'
  end.

(** the longest prefix of [s] that ends with a closing brace *)
Fixpoint up_to_last_close (s : string) : option string :=
  match s with
  | EmptyString => None
  | String c s' =>
      match up_to_last_close s' with
      | Some p => Some (String c p)
      | None =>
          if bool_decide (c = close_brace) then Some (String c EmptyString)
          else None
      end
  end.

(** [text.match(/\{[\s\S]*\}/)]: the star is greedy, so the match runs from
    the first opening brace to the last closing brace after it. *)
Definition match_json (text : string) : option string :=
  from_first_open text ≫= up_to_last_close.

(** [arr.join(', ')]: an undefined element prints as the empty string *)
Fixpoint join (sep : string) (l : list (option string)) : string :=
  match l with
  | [] => EmptyString
  | [x] => default EmptyString x
  | x :: rest => default EmptyString x +:+ sep +:+ join sep rest
  end.

(** [a || b] on strings *)
Definition or_else (a : option string) (b : string) : string :=
  match a with
  | Some s => if truthy s then s else b
  | None => b
  end.

Definition nl : string := String (ascii_of_nat 10) EmptyString.

Definition json_format : list string :=
  [ "{";
    "  " +:+ quoted "dueDateSuggestion" +:+ ": {";
    "    " +:+ quoted "hasDate" +:+ ": true/false,";
    "    " +:+ quoted "suggestedDate" +:+ ": " +:+ quoted "YYYY-MM-DD or null" +:+ ",";
    "    " +:+ quoted "reason" +:+ ": " +:+ quoted "Brief explanation";
    "  },";
    "  " +:+ quoted "listMovement" +:+ ": {";
    "    " +:+ quoted "shouldMove" +:+ ": true/false,";
    "    " +:+ quoted "suggestedList" +:+ ": " +:+ quoted "list name or null" +:+ ",";
    "    " +:+ quoted "reason" +:+ ": " +:+ quoted "Brief explanation";
    "  },";
    "  " +:+ quoted "insights" +:+ ": {";
    "    " +:+ quoted "priority" +:+ ": " +:+ quoted "high/medium/low" +:+ ",";
    "    " +:+ quoted "estimatedEffort" +:+ ": " +:+ quoted "Brief estimate" +:+ ",";
    "    " +:+ quoted "actionableSteps" +:+ ": [" +:+ quoted "step1" +:+ ", "
           +:+ quoted "step2" +:+ "],";
    "    " +:+ quoted "potentialBlockers" +:+ ": [" +:+ quoted "blocker1" +:+ "]";
    "  }";
    "}" ].

Definition build_prompt (c : Card.t) (boardLists : list BoardList.t)
    (boardCards : list Card.t) : string :=
  let listNames := join ", " ((λ l, Some (BoardList.title l)) <$> boardLists) in
  let cardTitles :=
    join ", "
      (Card.title
         <$> take 10 (filter (λ o, Card._id o ≠ Card._id c) boardCards)) in
  join nl
    (Some <$>
       ([ "You are a smart project management assistant. Analyze this task card and provide helpful suggestions.";
          EmptyString;
          "Task Title: " +:+ quoted (interpolate (Card.title c));
          "Task Description: "
            +:+ quoted (or_else (Card.description c) "No description");
          "Available Lists: " +:+ or_else (Some listNames) "To Do, In Progress, Done";
          "Other Cards in Board: " +:+ or_else (Some cardTitles) "None";
          EmptyString;
          "Please provide suggestions in the following JSON format only (no markdown, no extra text):" ]
        ++ json_format)).

Section Adapter.
(** the values [JSON.parse] builds; [JSON_parse] gives [None] where
    [JSON.parse] throws a [SyntaxError]; [prop] reads a property *)
Variable JSON : Type.
Variable JSON_parse : string → option JSON.
Variable prop : JSON → string → option JSON.
(** [process.env.GEMINI_API_KEY], and the external service *)
Variable GEMINI_API_KEY : option string.
Variable generateContent : string → Response.

Definition key_missing : bool :=
  match GEMINI_API_KEY with
  | None => true
  | Some k => negb (truthy k) || String.eqb k "undefined"
  end.

Definition getAISuggestions_body (c : Card.t) (boardLists : list BoardList.t)
    (boardCards : list Card.t) : Result (option JSON) :=
  if key_missing then Return None else
  let prompt := build_prompt c boardLists boardCards in
  bind (match generateContent prompt with
        | Rejected e => Throw e
        | Resolved text => Return text
        end)
    (λ text,
      (* [text.match] on [undefined] is a TypeError *)
      bind (match text with
            | Some t => Return (match_json t)
            | None => Throw "Cannot read properties of undefined (reading 'match')"
            end)
        (λ jsonMatch,
          match jsonMatch with
          | Some block =>
              match JSON_parse block with
              | Some suggestions => Return (Some suggestions)
              | None => Throw "Unexpected token in JSON"
              end
          | None => Return None
          end)).

Definition getAISuggestions (c : Card.t) (boardLists : list BoardList.t)
    (boardCards : list Card.t) : Result (option JSON) :=
  try_catch (getAISuggestions_body c boardLists boardCards)
            (λ _, Return None).

Record Insights := {
  aiPowered : bool;
  dueDateSuggestion : option JSON;
  listMovement : option JSON;
  insights : option JSON }.

Definition getCardInsights (c : Card.t) (boardCards : list Card.t)
    (boardLists : list BoardList.t) : Result (option Insights) :=
  try_catch
    (bind (getAISuggestions c boardLists boardCards)
       (λ aiSuggestions,
         match aiSuggestions with
         | None => Return None
         | Some ai =>
             Return (Some {| aiPowered := true;
                             dueDateSuggestion := prop ai "dueDateSuggestion";
                             listMovement := prop ai "listMovement";
                             insights := prop ai "insights" |})
         end))
    (λ _, Return None).
End Adapter.

End Gemini.

(** ** Concrete boards, used to run the definitions *)
Module Examples.
Import Recommendations.

(** 14 November 2023, 22:13:20 UTC: a Tuesday *)
Definition clock : Z := 1700000000000.

Definition lists : list BoardList.t :=
  [ BoardList.mk "l1" "Backlog"; BoardList.mk "l2" "Testing";
    BoardList.mk "l3" "Done" ].

Definition deploy : Card.t :=
  Card.mk "c1" (Some "Deploy to prod tomorrow") (Some "testing needed") "l1" None.

Definition milk : Card.t :=
  Card.mk "c2" (Some "Buy milk") (Some EmptyString) "l1" None.

Definition ship : Card.t :=
  Card.mk "c3" (Some "Ship it tomorrow") (Some "must be out by tomorrow") "l1" None.

Definition report : Card.t :=
  Card.mk "a" (Some "write report") (Some EmptyString) "l1" None.

Definition report_copy : Card.t :=
  Card.mk "b" (Some "write report") (Some EmptyString) "l1" None.

Definition report_bug : Card.t :=
  Card.mk "c" (Some "report bug") (Some EmptyString) "l1" None.


Definition notice : string := "Fix the LOGIN-page, it is DOWN!".

(** two cards without a description *)
Definition alpha : Card.t := Card.mk "a" (Some "alpha") None "l1" None.
Definition beta : Card.t := Card.mk "b" (Some "beta") None "l1" None.

(** the same two cards with an empty description *)
Definition alpha_empty : Card.t :=
  Card.mk "a" (Some "alpha") (Some EmptyString) "l1" None.
Definition beta_empty : Card.t :=
  Card.mk "b" (Some "beta") (Some EmptyString) "l1" None.

(** a reply of the model with two blocks, and a parser that knows the
    empty object only *)
Definition reply : string := "Sure: {} or, with braces, {}".

Definition parse_empty_object (s : string) : option unit :=
  if String.eqb s "{}" then Some () else None.

Definition no_prop (j : unit) (name : string) : option unit := None.

Definition answer (text : string) (prompt : string) : Gemini.Response :=
  Gemini.Resolved (Some text).

End Examples.

(** ** The specification's wording of the algorithms

    Each definition below follows a sentence of the specification rather
    than the code; the theorems compare it with the code above. *)
Module Spec.
Import JS Recommendations.

(** *** Tokenizer: "lowercase; replace every non-word, non-whitespace
    character with a space; split on whitespace runs" *)

Definition normalise (t : string) : string :=
  replace_non_word (toLowerCase t).

Definition no_space (w : string) : Prop :=
  string_forall (λ c, negb (is_space c)) w = true.

Definition ends_with_space (pre : string) : Prop :=
  ∃ pre' c, pre = pre' +:+ String c EmptyString ∧ is_space c = true.

Definition starts_with_space (post : string) : Prop :=
  ∃ c post', post = String c post' ∧ is_space c = true.

(** [w] is a token of [s]: a non-empty run of [s] without white space that
    white space, or an end of [s], bounds on both sides *)
Definition token_of (w s : string) : Prop :=
  ∃ pre post,
    s = pre +:+ w +:+ post ∧ w ≠ EmptyString ∧ no_space w ∧
    (pre = EmptyString ∨ ends_with_space pre) ∧
    (post = EmptyString ∨ starts_with_space post).

(** *** Date parser: the rules in their fixed order *)

Inductive Rule :=
  | today | tomorrow | next_week | end_of_week | next_month | in_days | in_weeks.

Definition rule_order : list Rule :=
  [today; tomorrow; next_week; end_of_week; next_month; in_days; in_weeks].

Definition rule_matches (lowerText : string) (r : Rule) : bool :=
  match r with
  | today => includes lowerText "today"
  | tomorrow => includes lowerText "tomorrow"
  | next_week => includes lowerText "next week"
  | end_of_week =>
      includes lowerText "this week" || includes lowerText "end of week"
      || includes lowerText "eow"
  | next_month => includes lowerText "next month"
  | in_days => bool_decide (is_Some (match_in "day" lowerText))
  | in_weeks => bool_decide (is_Some (match_in "week" lowerText))
  end.

(** the end of the local day that lies [days] days after the day of [clock] *)
Definition end_of_day_after (tza clock : Z) (days : Z) : Date :=
  t ← TimeClip clock;
  u ← TimeClip (UTC tza (MakeDate (Day (LocalTime tza t) + days)
                                  (TimeWithinDay (LocalTime tza t))));
  TimeClip (UTC tza (MakeDate (Day (LocalTime tza u)) 86399999)).

(** the number of days to the coming Friday, never 0 *)
Definition days_to_friday (tza clock : Z) : Z :=
  let d := (5 - WeekDay (LocalTime tza clock)) mod 7 in
  if d =? 0 then 7 else d.

Definition captured (unit lowerText : string) : Z :=
  parseInt (default EmptyString (match_in unit lowerText)).

Definition rule_date (tza clock : Z) (lowerText : string) (r : Rule) : Date :=
  match r with
  | today => end_of_day_after tza clock 0
  | tomorrow => end_of_day_after tza clock 1
  | next_week => end_of_day_after tza clock 7
  | end_of_week =>
      _ ← TimeClip clock; end_of_day_after tza clock (days_to_friday tza clock)
  | next_month =>
      setHours_end_of_day tza
        (setMonth tza (Date_now clock)
                  (num_add (getMonth tza (Date_now clock)) (Some 1)))
  | in_days => end_of_day_after tza clock (captured "day" lowerText)
  | in_weeks => end_of_day_after tza clock (7 * captured "week" lowerText)
  end.

(** "Only the first matching rule in this order applies" *)
Definition parse_date (tza clock : Z) (text : string) : option Date :=
  rule_date tza clock (toLowerCase text)
    <$> List.find (rule_matches (toLowerCase text)) rule_order.

(** *** List-movement matcher *)

(** [l] is the list the board offers for [pattern]: the first list whose
    lower-cased title contains one of the destination fragments *)
Definition destination (pattern : Pattern) (allLists : list BoardList.t)
    (l : BoardList.t) : Prop :=
  ∃ before after,
    allLists = before ++ l :: after ∧
    (∃ fragment, fragment ∈ listTitles pattern ∧
                 includes (toLowerCase (BoardList.title l)) fragment = true) ∧
    ∀ l' fragment, l' ∈ before → fragment ∈ listTitles pattern →
                   includes (toLowerCase (BoardList.title l')) fragment = false.

(** [pattern] yields the suggestion [s] for the card *)
Definition yields (c : Card.t) (allLists : list BoardList.t) (pattern : Pattern)
    (s : ListSuggestion) : Prop :=
  (∃ keyword, keyword ∈ keywords pattern ∧
              includes (toLowerCase (card_text c)) keyword = true) ∧
  ∃ l, destination pattern allLists l ∧
       BoardList._id l ≠ Card.list c ∧
       s = {| listId := BoardList._id l;
              listTitle := BoardList.title l;
              reason := pattern_reason pattern |}.

(** *** Related-card finder *)

(** the word set the code compares: the words of the text that the
    template literal builds, in which an undefined field is printed as
    the word "undefined" *)
Definition words_of (c : Card.t) : gset string :=
  extractWords (Some (card_text c)).

(** the candidates the code keeps: the other cards that reach the
    threshold, scored over [words_of] *)
Definition candidates (c : Card.t) (allCards : list Card.t) (threshold : Qc)
    : list RelatedCard :=
  filter (λ r, (threshold ≤ similarity r)%Qc)
    ((λ o, {| card := summary_of o;
               similarity := jaccardSimilarity (words_of c) (words_of o) |})
       <$> filter (λ o, Card._id o ≠ Card._id c) allCards).

Definition descending (a b : RelatedCard) : Prop :=
  (similarity b ≤ similarity a)%Qc.

(** "sort descending by similarity (ties: stable, source order preserved)" *)
Definition ranking (kept ranked : list RelatedCard) : Prop :=
  ranked ≡ₚ kept ∧
  StronglySorted descending ranked ∧
  ∀ q : Qc, filter (λ r, similarity r = q) ranked
            = filter (λ r, similarity r = q) kept.






(** *** AI adapter: "the first balanced {...} block" *)

(** the character [x] does not occur in [s] *)
Definition no_char (x : ascii) (s : string) : Prop :=
  string_forall (λ c, negb (bool_decide (c = x))) s = true.


(** the text up to the brace that closes [depth] open braces *)
Fixpoint balanced_rest (depth : nat) (s : string) : option string :=
  match s with
  | EmptyString => None
  | String c s' =>
      if bool_decide (c = Gemini.open_brace) then
        String c <$> balanced_rest (S depth) s'
      else if bool_decide (c = Gemini.close_brace) then
        match depth with
        | O => Some (String c EmptyString)
        | S d => String c <$> balanced_rest d s'
        end
      else String c <$> balanced_rest depth s'
  end.

Definition first_balanced_block (text : string) : option string :=
  match Gemini.from_first_open text with
  | Some (String c s') => String c <$> balanced_rest 0 s'
  | _ => None
  end.

End Spec.

(** ** The request handlers that serve the recommendations
    ([checkBoardAccess], [getCardRecommendations] of the card controller,
    [getCardRecommendationsInBoard] of the board controller) *)
Module Controllers.
Import JS Recommendations Gemini.

(** What awaiting a query or an [async] call gives: a value, or a
    rejection. The handlers read one thing of the error they catch, its
    [kind] (a Mongoose CastError of an id has kind ['ObjectId']; a TypeError
    or a ReferenceError has none). *)
Inductive Async (A : Type) : Type :=
  | Fulfilled (a : A)
  | Failed (kind : option string).
Arguments Fulfilled {A} a.
Arguments Failed {A} kind.

Definition await {A B} (m : Async A) (k : A → Async B) : Async B :=
  match m with
  | Fulfilled a => k a
  | Failed kind => Failed kind
  end.

Module Member.
(** the board schema does not require a member's [user] *)
Record t := mk { user : option string; role : string }.
End Member.

Module Board.
Record t := mk { _id : string; owner : string; members : list Member.t }.
End Board.

(** a card document: [toObject()] gives the fields the analysis reads *)
Module CardDoc.
Record t := mk { toObject : Card.t; board : string }.
End CardDoc.

Record Access := {
  hasAccess : bool;
  error : option string;
  board : option Board.t }.

(** [board.members.some(member => member.user.toString() === userId.toString())]:
    members are tried in order up to the first match; [toString] of an
    undefined [user] is a TypeError *)
Fixpoint some_member (members : list Member.t) (userId : string) : Async bool :=
  match members with
  | [] => Fulfilled false
  | m :: rest =>
      match Member.user m with
      | None => Failed None
      | Some u => if String.eqb u userId then Fulfilled true
                  else some_member rest userId
      end
  end.

Inductive Body (JSON : Type) : Type :=
  | Message (message : option string)
  | CardRecommendations (cardId : string) (cardTitle : option string)
      (ruleBased : Analysis) (aiInsights : option (Insights JSON))
  | BoardCardRecommendations (boardId cardId : string)
      (cardTitle : option string) (recommendations : Analysis).
Arguments Message {JSON} message.
Arguments CardRecommendations {JSON} cardId cardTitle ruleBased aiInsights.
Arguments BoardCardRecommendations {JSON} boardId cardId cardTitle recommendations.

Record Response (JSON : Type) := respond { status : Z; body : Body JSON }.
Arguments respond {JSON} status body.
Arguments status {JSON} r.
Arguments body {JSON} r.

(** the response without what the Gemini service contributed *)
Definition without_aiInsights {JSON} (r : Response JSON) : Response JSON :=
  match body r with
  | CardRecommendations cardId cardTitle ruleBased _ =>
      respond (status r) (CardRecommendations cardId cardTitle ruleBased None)
  | _ => r
  end.

Section Handlers.
Variable JSON : Type.
(** the collections: [Board.findById], [Card.findById], and the pair of
    [find(...).lean()] queries awaited together with [Promise.all] *)
Variable Board_findById : string → Async (option Board.t).
Variable Card_findById : string → Async (option CardDoc.t).
Variable find_cards_and_lists : string → Async (list Card.t * list BoardList.t).
(** local time offset, and the clock readings of the two [new Date()] *)
Variable tza : Z.
Variable clock_title clock_description : Z.

Definition checkBoardAccess (boardId userId : string) : Async Access :=
  await (Board_findById boardId) (λ found,
    match found with
    | None =>
        Fulfilled {| hasAccess := false; error := Some "Board not found";
                     board := None |}
    | Some b =>
        await (some_member (Board.members b) userId) (λ isMember,
          if negb isMember && negb (String.eqb (Board.owner b) userId)
          then Fulfilled {| hasAccess := false;
                            error := Some "Not authorized to access this board";
                            board := None |}
          else Fulfilled {| hasAccess := true; error := None;
                            board := Some b |})
    end).

(** [try { ... } catch (error) { ... }] of the two handlers *)
Definition or_catch (not_found : string) (m : Async (Response JSON))
    : Response JSON :=
  match m with
  | Fulfilled r => r
  | Failed kind =>
      if bool_decide (kind = Some "ObjectId")
      then respond 404 (Message (Some not_found))
      else respond 500 (Message (Some "Server error"))
  end.

Section CardController.
Variable JSON_parse : string → option JSON.
Variable prop : JSON → string → option JSON.
Variable GEMINI_API_KEY : option string.
Variable generateContent : string → Gemini.Response.

Definition getCardRecommendations (id userId : string) : Response JSON :=
  or_catch "Card not found"
    (await (Card_findById id) (λ found,
       match found with
       | None => Fulfilled (respond 404 (Message (Some "Card not found")))
       | Some card =>
           await (checkBoardAccess (CardDoc.board card) userId) (λ access,
             if negb (hasAccess access)
             then Fulfilled (respond 403 (Message (error access)))
             else
               await (find_cards_and_lists (CardDoc.board card))
                 (λ '(boardCards, boardLists),
                   let ruleBasedRecommendations :=
                     analyzeCard tza clock_title clock_description
                       (CardDoc.toObject card) boardCards boardLists in
                   let aiInsights :=
                     match getCardInsights JSON JSON_parse prop GEMINI_API_KEY
                             generateContent (CardDoc.toObject card)
                             boardCards boardLists with
                     | Return insights => insights
                     | Throw _ => None
                     end in
                   Fulfilled
                     (respond 200
                        (CardRecommendations
                           (Card._id (CardDoc.toObject card))
                           (Card.title (CardDoc.toObject card))
                           ruleBasedRecommendations aiInsights))))
       end)).
End CardController.

(** an identifier that the module neither declares nor imports: reading it
    throws a ReferenceError *)
Definition unresolved {A} : Async A := Failed None.

(** [boardController.js] calls [checkBoardAccess], which it neither
    declares nor imports *)
Definition getCardRecommendationsInBoard (boardId cardId userId : string)
    : Response JSON :=
  or_catch "Card or board not found"
    (await (unresolved : Async Access) (λ access,
       if negb (hasAccess access)
       then Fulfilled
              (respond
                 (if bool_decide (error access = Some "Board not found")
                  then 404 else 403)
                 (Message (error access)))
       else
         await (Card_findById cardId) (λ found,
           match found with
           | None => Fulfilled (respond 404 (Message (Some "Card not found")))
           | Some card =>
               if negb (String.eqb (CardDoc.board card) boardId)
               then Fulfilled
                      (respond 400
                         (Message (Some "Card does not belong to this board")))
               else
                 await (find_cards_and_lists boardId)
                   (λ '(boardCards, boardLists),
                     Fulfilled
                       (respond 200
                          (BoardCardRecommendations boardId
                             (Card._id (CardDoc.toObject card))
                             (Card.title (CardDoc.toObject card))
                             (analyzeCard tza clock_title clock_description
                                (CardDoc.toObject card) boardCards boardLists))))
           end))).
End Handlers.

End Controllers.

(** ** The reason a date rule is given with
    (the strings of [extractDateReason], by rule) *)
Module DateReasons.
Import JS Recommendations Spec.

(** the reason that names rule [r] *)
Definition rule_reason (lowerText : string) (r : Rule) : string :=
  match r with
  | today => "Mentioned " +:+ quoted "today"
  | tomorrow => "Mentioned " +:+ quoted "tomorrow"
  | next_week => "Mentioned " +:+ quoted "next week"
  | end_of_week => "Mentioned " +:+ quoted "this week"
  | next_month => "Mentioned " +:+ quoted "next month"
  | in_days =>
      "Mentioned "
      +:+ quoted ("in " +:+ default EmptyString (match_in "day" lowerText) +:+ " days")
  | in_weeks =>
      "Mentioned "
      +:+ quoted ("in " +:+ default EmptyString (match_in "week" lowerText) +:+ " weeks")
  end.

End DateReasons.

(** ** Boards and requests, used to run the handlers *)
Module Scenarios.
Import Recommendations Gemini Controllers.

(** local time five and a half hours ahead of UTC: the clock of
    [Examples.clock] reads Wednesday 15 November 2023, 03:43:20 *)
Definition tza : Z := 19800000.

(** ann's board, with bob as its one member *)
Definition team : Board.t :=
  Board.mk "b1" "ann" [Member.mk (Some "bob") "member"].

(** ann's other board, with a member entry that was saved without a user *)
Definition broken : Board.t :=
  Board.mk "b2" "ann" [Member.mk None "member"].

Definition boards (id : string) : Async (option Board.t) :=
  if String.eqb id "b1" then Fulfilled (Some team)
  else if String.eqb id "b2" then Fulfilled (Some broken)
  else Fulfilled None.

Definition cards (id : string) : Async (option CardDoc.t) :=
  if String.eqb id "c1" then Fulfilled (Some (CardDoc.mk Examples.deploy "b1"))
  else Fulfilled None.

Definition cards_and_lists (boardId : string)
    : Async (list Card.t * list BoardList.t) :=
  Fulfilled ([Examples.deploy; Examples.milk], Examples.lists).

Definition reports : list Card.t :=
  [Examples.report; Examples.report_copy; Examples.report_bug].

(** a service that is down *)
Definition down (prompt : string) : Gemini.Response :=
  Gemini.Rejected "fetch failed".

Definition recommend (key : option string)
    (generateContent : string → Gemini.Response) (id userId : string)
    : Response unit :=
  Controllers.getCardRecommendations unit boards cards cards_and_lists
    tza Examples.clock Examples.clock Examples.parse_empty_object
    Examples.no_prop key generateContent id userId.

End Scenarios.

(** ** Properties of the similarity engine *)
Section Similarity.
Import JS Recommendations.

Lemma filter_elem_of_intersection (A B : gset string) :
  filter (λ x, x ∈ B) A = A ∩ B.
Proof. apply set_eq. intros x. rewrite elem_of_filter. set_solver. Qed.

Lemma Zpos_of_nat (n : nat) : (0 < n)%nat → Z.pos (Pos.of_nat n) = Z.of_nat n.
Proof.
  intros Hn. rewrite <- (positive_nat_Z (Pos.of_nat n)).
  rewrite Nat2Pos.id; [done|]. by intros ->; inversion Hn.
Qed.

Lemma jaccardSimilarity_unfold (A B : gset string) :
  jaccardSimilarity A B =
    if decide (size (A ∪ B) = 0%nat) then 0%Qc
    else Q2Qc (Z.of_nat (size (A ∩ B)) # Pos.of_nat (size (A ∪ B))).
Proof. unfold jaccardSimilarity. by rewrite filter_elem_of_intersection. Qed.

Lemma fraction_range (i u : nat) :
  (i ≤ u)%nat → (0 < u)%nat →
  (0 ≤ Q2Qc (Z.of_nat i # Pos.of_nat u))%Qc ∧ (Q2Qc (Z.of_nat i # Pos.of_nat u) ≤ 1)%Qc.
Proof.
  intros Hi Hu. unfold Qcle. simpl. rewrite !Qred_correct.
  unfold Qle. simpl. rewrite Zpos_of_nat by done. lia.
Qed.

Lemma fraction_one (u : nat) :
  (0 < u)%nat → Q2Qc (Z.of_nat u # Pos.of_nat u) = 1%Qc.
Proof.
  intros Hu. apply Qc_is_canon. simpl. rewrite Qred_correct.
  unfold Qeq. simpl. rewrite Zpos_of_nat by done. lia.
Qed.

Lemma fraction_zero (u : positive) : Q2Qc (0 # u) = 0%Qc.
Proof. apply Qc_is_canon. simpl. by rewrite Qred_correct. Qed.

Lemma jaccardSimilarity_comm (A B : gset string) :
  jaccardSimilarity A B = jaccardSimilarity B A.
Proof.
  rewrite !jaccardSimilarity_unfold.
  assert (A ∩ B = B ∩ A) as -> by set_solver.
  assert (A ∪ B = B ∪ A) as -> by set_solver. done.
Qed.

Lemma jaccardSimilarity_range (A B : gset string) :
  (0 ≤ jaccardSimilarity A B)%Qc ∧ (jaccardSimilarity A B ≤ 1)%Qc.
Proof.
  rewrite jaccardSimilarity_unfold. case_decide as Hsz.
  - split; [done|]. by compute.
  - apply fraction_range; [|lia].
    apply subseteq_size. set_solver.
Qed.

Lemma jaccardSimilarity_empty_l (B : gset string) :
  jaccardSimilarity ∅ B = 0%Qc.
Proof.
  rewrite jaccardSimilarity_unfold. case_decide; [done|].
  assert (∅ ∩ B = (∅ : gset string)) as -> by set_solver.
  rewrite size_empty. apply fraction_zero.
Qed.

(** C9: the similarity of two word sets is |A ∩ B| / |A ∪ B|, it is 0 for
    two empty sets (the empty union is a case of its own), 1 for a
    non-empty set and itself, symmetric, and always between 0 and 1. *)
Theorem jaccardSimilarity_spec :
  jaccardSimilarity ∅ ∅ = 0%Qc ∧
  (∀ A B : gset string, A ∪ B ≠ ∅ →
     jaccardSimilarity A B
     = (Qc_of_Z (Z.of_nat (size (A ∩ B))) / Qc_of_Z (Z.of_nat (size (A ∪ B))))%Qc) ∧
  (∀ S : gset string, S ≠ ∅ → jaccardSimilarity S S = 1%Qc) ∧
  (∀ A B : gset string, jaccardSimilarity A B = jaccardSimilarity B A) ∧
  (∀ A B : gset string,
     (0 ≤ jaccardSimilarity A B)%Qc ∧ (jaccardSimilarity A B ≤ 1)%Qc).
Proof.
  split_and!.
  - apply jaccardSimilarity_empty_l.
  - intros A B Hne. rewrite jaccardSimilarity_unfold.
    assert (size (A ∪ B) ≠ 0%nat) as Hsz by by rewrite size_non_empty_iff, leibniz_equiv_iff.
    rewrite decide_False by done.
    apply Qc_is_canon. simpl. rewrite !Qred_correct.
    rewrite Qmake_Qdiv, Zpos_of_nat by lia. done.
  - intros S Hne. rewrite jaccardSimilarity_unfold.
    assert (size S ≠ 0%nat) as Hsz by by rewrite size_non_empty_iff, leibniz_equiv_iff.
    assert (S ∪ S = S) as -> by set_solver.
    assert (S ∩ S = S) as -> by set_solver.
    rewrite decide_False by done.
    apply fraction_one. lia.
  - apply jaccardSimilarity_comm.
  - apply jaccardSimilarity_range.
Qed.

(** the properties at the word sets of two concrete texts *)
Lemma jaccardSimilarity_spec_witness :
  let A := extractWords (Some "fix login page") in
  let B := extractWords (Some "login page broken") in
  A ≠ ∅ ∧ jaccardSimilarity A A = 1%Qc ∧
  jaccardSimilarity A B = jaccardSimilarity B A.
Proof.
  intros A B.
  assert (A ≠ ∅) as Hne by (apply (bool_decide_unpack _); by vm_compute).
  split_and!; [done| |].
  - by apply (proj1 (proj2 (proj2 jaccardSimilarity_spec)) A).
  - apply (proj1 (proj2 (proj2 (proj2 jaccardSimilarity_spec))) A B).
Defined.

End Similarity.

(** ** Properties of the tokenizer *)
Section Tokenizer.
Import JS Recommendations Spec.

Lemma append_cons (x : ascii) (a b : string) :
  String x a +:+ b = String x (a +:+ b).
Proof. reflexivity. Qed.

Lemma append_nil_l (a : string) : EmptyString +:+ a = a.
Proof. reflexivity. Qed.

Lemma append_assoc (a b c : string) : (a +:+ b) +:+ c = a +:+ b +:+ c.
Proof. induction a as [|x a IH]; [done|]. by rewrite !append_cons, IH. Qed.

Lemma string_forall_append (p : ascii → bool) (a b : string) :
  string_forall p (a +:+ b) = string_forall p a && string_forall p b.
Proof.
  induction a as [|x a IH]; [done|]. rewrite append_cons. cbn.
  by rewrite IH, andb_assoc.
Qed.

Lemma string_forall_impl (p q : ascii → bool) (s : string) :
  (∀ c, p c = true → q c = true) →
  string_forall p s = true → string_forall q s = true.
Proof.
  intros Hpq. induction s as [|c s IH]; [done|]. cbn.
  rewrite !andb_true_iff. naive_solver.
Qed.

Lemma string_forall_map (p : ascii → bool) (f : ascii → ascii) (s : string) :
  (∀ c, p (f c) = true) → string_forall p (string_map f s) = true.
Proof.
  intros Hp. induction s as [|c s IH]; [done|]. cbn. by rewrite Hp, IH.
Qed.

(** what is left of a character after lower-casing and replacement is a
    lower-case word character or white space *)
Lemma normalised_char (c : ascii) :
  let c' := lower_char c in
  let c'' := if is_word c' || is_space c' then c' else " "%char in
  is_lower_word c'' || is_space c'' = true.
Proof. destruct c as [[] [] [] [] [] [] [] []]; by vm_compute. Qed.

Lemma normalise_chars (t : string) :
  string_forall (λ c, is_lower_word c || is_space c) (normalise t) = true.
Proof.
  unfold normalise, replace_non_word, toLowerCase.
  induction t as [|c t IH]; [done|]. cbn. rewrite IH, andb_true_r.
  apply normalised_char.
Qed.

Lemma split_ws_space (c : ascii) (s : string) :
  is_space c = true →
  split_ws (String c s)
  = if head_space s then split_ws s else EmptyString :: split_ws s.
Proof. intros Hc. cbn. rewrite Hc. by destruct s. Qed.

Lemma split_ws_not_nil (s : string) : split_ws s ≠ [].
Proof.
  induction s as [|c s IH]; [done|].
  destruct (is_space c) eqn:Hc.
  - rewrite split_ws_space by done. by destruct (head_space s).
  - cbn. rewrite Hc. by destruct (split_ws s).
Qed.

Lemma split_ws_word (c : ascii) (s : string) :
  is_space c = false →
  ∃ p ps, split_ws s = p :: ps ∧ split_ws (String c s) = String c p :: ps.
Proof.
  intros Hc. cbn. rewrite Hc.
  destruct (split_ws s) as [|p ps] eqn:Hs; [by apply split_ws_not_nil in Hs|].
  eauto.
Qed.

Lemma split_ws_head_space (s : string) :
  head_space s = true → ∃ ps, split_ws s = EmptyString :: ps.
Proof.
  induction s as [|c s IH]; [done|]. cbn [head_space]. intros Hc.
  rewrite split_ws_space by done.
  destruct (head_space s); eauto.
Qed.

Lemma starts_with_space_head (s : string) :
  starts_with_space s ↔ head_space s = true.
Proof.
  split.
  - by intros (c & s' & -> & Hc).
  - destruct s as [|c s]; [done|]. intros Hc. by exists c, s.
Qed.

Lemma ends_with_space_cons (c : ascii) (pre : string) :
  ends_with_space pre → ends_with_space (String c pre).
Proof. intros (pre' & x & -> & Hx). by exists (String c pre'), x. Qed.

(** every piece of [split_ws] is a token, or empty *)
Lemma split_ws_sound (s : string) :
  ∃ p ps, split_ws s = p :: ps ∧
    (∃ rest, s = p +:+ rest ∧ no_space p ∧
             (rest = EmptyString ∨ starts_with_space rest)) ∧
    ∀ w, w ∈ ps → w ≠ EmptyString →
      ∃ pre post, s = pre +:+ w +:+ post ∧ no_space w ∧
                  ends_with_space pre ∧
                  (post = EmptyString ∨ starts_with_space post).
Proof.
  induction s as [|c s (p & ps & Hs & (rest & Hp & Hnp & Hrest) & Htail)].
  { exists EmptyString, []. split_and!; [done| |by intros ? ?%elem_of_nil].
    exists EmptyString. split_and!; [done..|by left]. }
  destruct (is_space c) eqn:Hc.
  - assert (ends_with_space (String c EmptyString)) as Hpre
      by by exists EmptyString, c.
    assert (∀ w, w ∈ ps → w ≠ EmptyString →
      ∃ pre post, String c s = pre +:+ w +:+ post ∧ no_space w ∧
                  ends_with_space pre ∧
                  (post = EmptyString ∨ starts_with_space post)) as Htail'.
    { intros w Hw Hne. destruct (Htail w Hw Hne) as (pre & post & -> & ? & ? & ?).
      exists (String c pre), post. split_and!; auto using ends_with_space_cons. }
    assert (∃ rest0, String c s = EmptyString +:+ rest0 ∧ no_space EmptyString ∧
              (rest0 = EmptyString ∨ starts_with_space rest0)) as Hhead.
    { exists (String c s). split_and!; [done..|]. right. by exists c, s. }
    rewrite split_ws_space by done. destruct (head_space s) eqn:Hh.
    + destruct (split_ws_head_space s Hh) as [ps' Hs']. rewrite Hs in Hs'.
      simplify_eq. exists EmptyString, ps'. rewrite Hs. by split_and!.
    + exists EmptyString, (p :: ps). rewrite Hs. split_and!; [done..|].
      intros w [->|Hw]%elem_of_cons Hne; [|by apply Htail'].
      exists (String c EmptyString), rest. split_and!; [by rewrite Hp|done..].
  - destruct (split_ws_word c s Hc) as (p' & ps' & Hs' & ->).
    rewrite Hs in Hs'. simplify_eq.
    exists (String c p'), ps'. split_and!; [done| |].
    + exists rest. split_and!; [done| |done].
      unfold no_space in *. cbn. by rewrite Hc, Hnp.
    + intros w Hw Hne. destruct (Htail w Hw Hne) as (pre & post & -> & ? & ? & ?).
      exists (String c pre), post. split_and!; auto using ends_with_space_cons.
Qed.

Lemma split_ws_head (w post : string) :
  no_space w → post = EmptyString ∨ starts_with_space post →
  ∃ ps, split_ws (w +:+ post) = w :: ps.
Proof.
  intros Hw Hpost. induction w as [|a w IH].
  - rewrite append_nil_l. destruct Hpost as [->|Hpost]; [by exists []|].
    apply split_ws_head_space. by apply starts_with_space_head.
  - unfold no_space in *. cbn in Hw. apply andb_true_iff in Hw as [Ha Hw].
    apply negb_true_iff in Ha.
    destruct (IH Hw) as [ps Hps].
    destruct (split_ws_word a (w +:+ post) Ha) as (p' & ps' & Hs' & Hs).
    rewrite Hps in Hs'. simplify_eq. exists ps'. by rewrite append_cons.
Qed.

(** every token is a piece of [split_ws] *)
Lemma split_ws_complete (pre' : string) (c : ascii) (w post : string) :
  is_space c = true → w ≠ EmptyString → no_space w →
  post = EmptyString ∨ starts_with_space post →
  ∃ p ps, split_ws (pre' +:+ String c (w +:+ post)) = p :: ps ∧ w ∈ ps.
Proof.
  intros Hc Hne Hw Hpost.
  destruct (split_ws_head w post Hw Hpost) as [ps0 Hps0].
  induction pre' as [|b pre' (p & ps & Hs & Hin)].
  - rewrite append_nil_l, split_ws_space by done.
    assert (head_space (w +:+ post) = false) as ->.
    { destruct w as [|a w]; [done|]. unfold no_space in Hw. cbn in Hw.
      apply andb_true_iff in Hw as [Ha _]. by apply negb_true_iff in Ha. }
    exists EmptyString, (w :: ps0). rewrite Hps0. split; [done|]. by left.
  - rewrite append_cons. destruct (is_space b) eqn:Hb.
    + rewrite split_ws_space by done. rewrite Hs.
      destruct (head_space _).
      * by exists p, ps.
      * exists EmptyString, (p :: ps). split; [done|]. by right.
    + destruct (split_ws_word b (pre' +:+ String c (w +:+ post)) Hb)
        as (p' & ps' & Hs' & ->).
      rewrite Hs in Hs'. simplify_eq. by exists (String b p'), ps'.
Qed.

Lemma elem_of_split_ws (w s : string) :
  w ∈ split_ws s ∧ w ≠ EmptyString ↔ token_of w s.
Proof.
  split.
  - intros [Hin Hne].
    destruct (split_ws_sound s) as (p & ps & Hs & (rest & Hp & Hnp & Hrest) & Htail).
    rewrite Hs in Hin. apply elem_of_cons in Hin as [->|Hin].
    + exists EmptyString, rest. split_and!; auto.
    + destruct (Htail w Hin Hne) as (pre & post & ? & ? & ? & ?).
      exists pre, post. split_and!; auto.
  - intros (pre & post & -> & Hne & Hw & [->|(pre' & c & -> & Hc)] & Hpost).
    + split; [|done]. rewrite append_nil_l.
      destruct (split_ws_head w post Hw Hpost) as [ps ->]. by left.
    + split; [|done]. rewrite append_assoc, append_cons, append_nil_l.
      destruct (split_ws_complete pre' c w post) as (p & ps & -> & Hin); auto.
      by right.
Qed.

Lemma split_ws_pieces (p : ascii → bool) (s w : string) :
  string_forall p s = true → w ∈ split_ws s →
  string_forall (λ c, p c && negb (is_space c)) w = true.
Proof.
  intros Hs Hin. destruct (decide (w = EmptyString)) as [->|Hne]; [done|].
  destruct (proj1 (elem_of_split_ws w s) (conj Hin Hne))
    as (pre & post & -> & _ & Hw & _).
  rewrite !string_forall_append, !andb_true_iff in Hs.
  destruct Hs as (_ & Hs & _). unfold no_space in Hw.
  clear Hin Hne. induction w as [|c w IH]; [done|]. cbn in *.
  rewrite !andb_true_iff in *. naive_solver.
Qed.

Lemma elem_of_extractWords (w t : string) :
  w ∈ extractWords (Some t) ↔ w ∈ split_ws (normalise t) ∧ keep_word w = true.
Proof.
  unfold extractWords. destruct t as [|c t].
  - cbn. split; [by intros ?%elem_of_empty|].
    intros [->%list_elem_of_singleton Hk]. done.
  - cbn [truthy]. rewrite elem_of_list_to_set, list_elem_of_filter. tauto.
Qed.

Lemma keep_word_spec (w : string) :
  keep_word w = true ↔ (2 < String.length w)%nat ∧ w ∉ stopWords.
Proof.
  unfold keep_word.
  rewrite andb_true_iff, Nat.ltb_lt, negb_true_iff, bool_decide_eq_false.
  done.
Qed.

(** C10: the tokenizer lower-cases the text, replaces every character that
    is neither a word character nor white space by a space, splits on runs
    of white space and keeps exactly the tokens longer than 2 that are not
    stop words; so no word of the set has length at most 2 or is a stop
    word (and every word consists of [a-z0-9_]); the empty and the
    undefined text give the empty set. *)
Theorem extractWords_spec :
  extractWords None = ∅ ∧ extractWords (Some EmptyString) = ∅ ∧
  (∀ t w : string,
     w ∈ extractWords (Some t) ↔
     token_of w (normalise t) ∧ (2 < String.length w)%nat ∧ w ∉ stopWords) ∧
  (∀ (t : option string) (w : string),
     w ∈ extractWords t →
     (2 < String.length w)%nat ∧ (w ∉ stopWords) ∧
     string_forall is_lower_word w = true).
Proof.
  split_and!; [done..| |].
  - intros t w. rewrite elem_of_extractWords, keep_word_spec, <- elem_of_split_ws.
    split; [|tauto]. intros (? & Hlen & ?). split_and!; [done| |done..].
    intros ->. cbn in Hlen. lia.
  - intros [t|] w; [|by intros ?%elem_of_empty].
    rewrite elem_of_extractWords, keep_word_spec. intros (Hin & ? & ?).
    split_and!; [done..|].
    pose proof (split_ws_pieces _ _ _ (normalise_chars t) Hin) as Hw.
    revert Hw. apply string_forall_impl. intros c.
    rewrite andb_true_iff, orb_true_iff, negb_true_iff. intros [[?|?] ?]; congruence.
Qed.

(** the tokenizer at a concrete text *)
Lemma extractWords_spec_witness :
  "login" ∈ extractWords (Some Examples.notice) ∧
  (2 < String.length "login")%nat ∧ "login" ∉ stopWords.
Proof.
  assert ("login" ∈ extractWords (Some Examples.notice)) as Hin
    by (apply (bool_decide_unpack _); vm_compute; exact I).
  split; [exact Hin|].
  destruct (proj2 (proj2 (proj2 extractWords_spec)) _ _ Hin) as (Hlen & Hstop & _).
  exact (conj Hlen Hstop).
Defined.

End Tokenizer.

(** ** Properties of the orchestrator *)
Section Orchestrator.
Import JS Recommendations Spec.

Variable tza : Z.
Variables clock_title clock_description : Z.

Lemma is_empty_spec {A} (l : list A) : is_empty l = true ↔ l = [].
Proof. by destruct l. Qed.

(** C1: the result of [analyzeCard] carries [smartTips] exactly when it has
    no date suggestion, no list suggestion and no related card, and the
    tips are then the fixed list of three generic tips. *)
Theorem analyzeCard_smartTips (c : Card.t) (boardCards : list Card.t)
    (boardLists : list BoardList.t) :
  let r := analyzeCard tza clock_title clock_description c boardCards boardLists in
  (is_Some (smartTips r) ↔
     suggestedDueDates r = [] ∧ suggestedListMovement r = None ∧
     relatedCards r = []) ∧
  (is_Some (smartTips r) → smartTips r = Some generic_tips) ∧
  length generic_tips = 3%nat.
Proof.
  cbn zeta. unfold analyzeCard. cbn [smartTips suggestedDueDates
    suggestedListMovement relatedCards].
  set (dates := title_suggestion _ _ ++ _).
  set (ls := suggestListMovement _ _).
  set (rel := findRelatedCards _ _ _ _).
  rewrite <- !is_empty_spec.
  destruct (is_empty dates), ls as [l|], (is_empty rel); cbn;
    split_and!; try done; try (split; [by intros []|]);
    try (by intros (? & ? & ?)); eauto.
Qed.

Lemma title_suggestion_spec (c : Card.t) (titleDate : option Date) s :
  s ∈ title_suggestion c titleDate →
  source s = from_title ∧ confidence s = high ∧ titleDate = Some (date s).
Proof.
  destruct titleDate as [d|]; [|by intros ?%elem_of_nil].
  by intros ->%list_elem_of_singleton.
Qed.

Lemma description_suggestion_spec (c : Card.t)
    (titleDate descriptionDate : option Date) s :
  s ∈ description_suggestion c titleDate descriptionDate →
  source s = from_description ∧ confidence s = medium ∧
  descriptionDate = Some (date s).
Proof.
  unfold description_suggestion.
  destruct descriptionDate as [d|]; [|by intros ?%elem_of_nil].
  destruct (match titleDate with None => true | Some t => _ end);
    [|by intros ?%elem_of_nil].
  by intros ->%list_elem_of_singleton.
Qed.

(** C6: the date found in the title is suggested with confidence high; the
    date found in the description is suggested, with confidence medium,
    exactly when there is no title date or its time value differs ([!==])
    from that of the title date; two dates with the same time value give
    one suggestion. *)
Theorem analyzeCard_due_dates (c : Card.t) (boardCards : list Card.t)
    (boardLists : list BoardList.t) :
  let r := analyzeCard tza clock_title clock_description c boardCards boardLists in
  let titleDate := parseDateKeywords tza clock_title (Card.title c) in
  let descriptionDate :=
    parseDateKeywords tza clock_description (Card.description c) in
  (∀ d, titleDate = Some d →
     ∃ s, s ∈ suggestedDueDates r ∧ source s = from_title ∧
          confidence s = high ∧ date s = d) ∧
  ((∃ s, s ∈ suggestedDueDates r ∧ source s = from_description) ↔
   ∃ d, descriptionDate = Some d ∧
        (titleDate = None ∨
         ∃ t, titleDate = Some t ∧ num_neq (getTime d) (getTime t) = true)) ∧
  (∀ s, s ∈ suggestedDueDates r →
     (source s = from_title ∧ confidence s = high ∧ titleDate = Some (date s)) ∨
     (source s = from_description ∧ confidence s = medium ∧
      descriptionDate = Some (date s))) ∧
  (∀ x : Z, titleDate = Some (Some x) → descriptionDate = Some (Some x) →
     length (suggestedDueDates r) = 1%nat).
Proof.
  cbn zeta. unfold analyzeCard. cbn [suggestedDueDates].
  set (titleDate := parseDateKeywords tza clock_title _).
  set (descriptionDate := parseDateKeywords tza clock_description _).
  split_and!.
  - intros d Hd. rewrite Hd. eexists. split; [by left|done].
  - split.
    + intros (s & [Hs|Hs]%elem_of_app & Hsrc).
      { apply title_suggestion_spec in Hs as (? & _). congruence. }
      revert Hs. unfold description_suggestion.
      destruct descriptionDate as [d|]; [|by intros ?%elem_of_nil].
      destruct titleDate as [t|].
      * destruct (num_neq _ _) eqn:Hneq; [|by intros ?%elem_of_nil].
        intros _. exists d. split; [done|]. right. by exists t.
      * intros _. exists d. split; [done|]. by left.
    + intros (d & -> & Hcond). eexists. split.
      * apply elem_of_app. right. unfold description_suggestion.
        destruct Hcond as [->|(t & -> & ->)]; by left.
      * done.
  - intros s [Hs|Hs]%elem_of_app.
    + left. by apply title_suggestion_spec in Hs.
    + right. by apply description_suggestion_spec in Hs.
  - intros x -> ->. cbn. by rewrite Z.eqb_refl.
Qed.

End Orchestrator.

(** no keyword, no matching list, no other card: the three tips *)
Lemma analyzeCard_smartTips_witness :
  Recommendations.smartTips
    (Recommendations.analyzeCard 0 Examples.clock Examples.clock
       Examples.milk [Examples.milk] Examples.lists)
  = Some Recommendations.generic_tips.
Proof.
  pose proof (analyzeCard_smartTips 0 Examples.clock Examples.clock
                Examples.milk [Examples.milk] Examples.lists) as Hspec.
  cbv zeta in Hspec. destruct Hspec as (Hiff & Htips & _).
  apply Htips. apply Hiff. vm_compute. repeat split.
Defined.

(** "tomorrow" in the title and in the description: one suggestion *)
Lemma analyzeCard_due_dates_witness :
  length (Recommendations.suggestedDueDates
            (Recommendations.analyzeCard 0 Examples.clock Examples.clock
               Examples.ship [] []))
  = 1%nat.
Proof.
  pose proof (analyzeCard_due_dates 0 Examples.clock Examples.clock
                Examples.ship [] []) as Hspec.
  cbv zeta in Hspec. destruct Hspec as (_ & _ & _ & Hone).
  apply (Hone 1700092799999); vm_compute; reflexivity.
Defined.

(** ** Properties of the list-movement matcher *)
Section ListMovement.
Import JS Recommendations Spec.

Lemma existsb_elem_of {A} (f : A → bool) (l : list A) :
  existsb f l = true ↔ ∃ x, x ∈ l ∧ f x = true.
Proof.
  rewrite existsb_exists. by setoid_rewrite list_elem_of_In.
Qed.

Lemma existsb_false_elem_of {A} (f : A → bool) (l : list A) :
  existsb f l = false ↔ ∀ x, x ∈ l → f x = false.
Proof.
  rewrite <- not_true_iff_false, existsb_elem_of. split.
  - intros Hno x Hx. apply not_true_iff_false. naive_solver.
  - intros Hall (x & Hx & Hfx). rewrite (Hall x Hx) in Hfx. done.
Qed.

Lemma find_first {A} (f : A → bool) (l : list A) (x : A) :
  List.find f l = Some x ↔
  ∃ before after, l = before ++ x :: after ∧ f x = true ∧
                  ∀ y, y ∈ before → f y = false.
Proof.
  induction l as [|a l IH]; cbn.
  - split; [done|]. by intros ([|??] & ? & ? & _).
  - destruct (f a) eqn:Ha.
    + split.
      * intros [= ->]. exists [], l. split_and!; [done..|]. by intros ? ?%elem_of_nil.
      * intros ([|b before] & after & Heq & Hx & Hbefore); simplify_eq/=; [done|].
        rewrite Hbefore in Ha by by left. done.
    + rewrite IH. split.
      * intros (before & after & -> & Hx & Hbefore).
        exists (a :: before), after. split_and!; [done..|].
        by intros y [->|?]%elem_of_cons; [|apply Hbefore].
      * intros ([|b before] & after & Heq & Hx & Hbefore); simplify_eq/=.
        { congruence. }
        exists before, after. split_and!; [done..|].
        intros y Hy. apply Hbefore. by right.
Qed.

Lemma find_destination (pattern : Pattern) (allLists : list BoardList.t)
    (l : BoardList.t) :
  List.find (title_matches pattern) allLists = Some l ↔
  destination pattern allLists l.
Proof.
  rewrite find_first. unfold destination, title_matches.
  apply exist_proper; intros before. apply exist_proper; intros after.
  rewrite existsb_elem_of.
  apply and_iff_compat_l, and_iff_compat_l.
  split.
  - intros Hb l' fragment Hl' Hf.
    specialize (Hb l' Hl'). rewrite existsb_false_elem_of in Hb. by apply Hb.
  - intros Hb l' Hl'. apply existsb_false_elem_of. intros fragment Hf.
    by apply Hb.
Qed.

Lemma try_pattern_yields (c : Card.t) (allLists : list BoardList.t)
    (pattern : Pattern) (s : ListSuggestion) :
  try_pattern c (toLowerCase (card_text c)) allLists pattern = Some s ↔
  yields c allLists pattern s.
Proof.
  unfold try_pattern, yields, hasKeyword.
  rewrite <- existsb_elem_of.
  destruct (existsb _ (keywords pattern)); [|naive_solver].
  setoid_rewrite <- find_destination.
  destruct (List.find _ allLists) as [l|]; [|naive_solver].
  destruct (String.eqb_spec (BoardList._id l) (Card.list c)) as [Heq|Hne]; cbn.
  - split; [done|]. intros (_ & l' & [= <-] & ? & _). done.
  - split.
    + intros [= <-]. split; [done|]. by exists l.
    + intros (_ & l' & [= <-] & _ & ->). done.
Qed.

Lemma scan_patterns_Some (c : Card.t) (text : string)
    (allLists : list BoardList.t) (patterns : list Pattern) (s : ListSuggestion) :
  scan_patterns c text allLists patterns = Some s ↔
  ∃ (i : nat) (pattern : Pattern),
    patterns !! i = Some pattern ∧
    try_pattern c text allLists pattern = Some s ∧
    ∀ (j : nat) (earlier : Pattern),
      (j < i)%nat → patterns !! j = Some earlier →
      try_pattern c text allLists earlier = None.
Proof.
  induction patterns as [|p patterns IH]; cbn.
  - split; [done|]. by intros (i & ? & ? & _).
  - destruct (try_pattern c text allLists p) as [s0|] eqn:Hp.
    + split.
      * intros [= ->]. exists 0%nat, p. split_and!; [done..|]. lia.
      * intros ([|i] & p' & Hi & Hp' & Hearlier); simplify_eq/=; [done|].
        specialize (Hearlier 0%nat p). rewrite Hp in Hearlier.
        discriminate Hearlier; [lia|done].
    + rewrite IH. split.
      * intros (i & p' & Hi & Hp' & Hearlier). exists (S i), p'.
        split_and!; [done..|]. intros [|j] q Hj Hq; simplify_eq/=; [done|].
        apply (Hearlier j); [lia|done].
      * intros ([|i] & p' & Hi & Hp' & Hearlier); simplify_eq/=.
        exists i, p'. split_and!; [done..|]. intros j q Hj Hq.
        apply (Hearlier (S j)); [lia|done].
Qed.

Lemma scan_patterns_None (c : Card.t) (text : string)
    (allLists : list BoardList.t) (patterns : list Pattern) :
  scan_patterns c text allLists patterns = None ↔
  ∀ pattern, pattern ∈ patterns → try_pattern c text allLists pattern = None.
Proof.
  induction patterns as [|p patterns IH]; cbn.
  - split; [|done]. by intros _ ? ?%elem_of_nil.
  - destruct (try_pattern c text allLists p) as [s0|] eqn:Hp.
    + split; [done|]. intros Hall. rewrite Hall in Hp by by left. done.
    + rewrite IH. split.
      * by intros Hall q [->|?]%elem_of_cons; [|apply Hall].
      * intros Hall q Hq. apply Hall. by right.
Qed.

Lemma yields_no_lists (c : Card.t) (pattern : Pattern) (s : ListSuggestion) :
  ¬ yields c [] pattern s.
Proof. by intros (_ & l & ([|??] & ? & ? & _) & _). Qed.

Lemma try_pattern_None (c : Card.t) (allLists : list BoardList.t)
    (pattern : Pattern) :
  try_pattern c (toLowerCase (card_text c)) allLists pattern = None ↔
  ∀ s, ¬ yields c allLists pattern s.
Proof.
  setoid_rewrite <- try_pattern_yields.
  destruct (try_pattern _ _ _ _) as [s|]; naive_solver.
Qed.

Lemma suggestListMovement_cons (c : Card.t) (l0 : BoardList.t)
    (allLists : list BoardList.t) :
  suggestListMovement c (l0 :: allLists)
  = scan_patterns c (toLowerCase (card_text c)) (l0 :: allLists) listPatterns.
Proof. reflexivity. Qed.

(** C5: the four categories are tried in their fixed order. A category
    yields a suggestion when one of its keywords occurs in the lower-cased
    title and description, the first list whose lower-cased title contains
    one of its fragments exists and is not the card's current list; the
    suggestion names that list and the category's reason. The result is the
    suggestion of the first category that yields one, and nothing when no
    category yields one. *)
Theorem suggestListMovement_spec (c : Card.t) (allLists : list BoardList.t) :
  (∀ s, suggestListMovement c allLists = Some s ↔
     ∃ (i : nat) (pattern : Pattern),
       listPatterns !! i = Some pattern ∧ yields c allLists pattern s ∧
       ∀ (j : nat) (earlier : Pattern) s',
         (j < i)%nat → listPatterns !! j = Some earlier →
         ¬ yields c allLists earlier s') ∧
  (suggestListMovement c allLists = None ↔
     ∀ pattern s, pattern ∈ listPatterns → ¬ yields c allLists pattern s) ∧
  (∀ s, suggestListMovement c allLists = Some s → listId s ≠ Card.list c).
Proof.
  assert (∀ s, suggestListMovement c allLists = Some s ↔
     ∃ (i : nat) (pattern : Pattern),
       listPatterns !! i = Some pattern ∧ yields c allLists pattern s ∧
       ∀ (j : nat) (earlier : Pattern) s',
         (j < i)%nat → listPatterns !! j = Some earlier →
         ¬ yields c allLists earlier s') as Hsome.
  { intros s. destruct allLists as [|l0 allLists].
    { cbn. split; [done|]. by intros (_ & ? & _ & ?%yields_no_lists & _). }
    rewrite suggestListMovement_cons, scan_patterns_Some.
    apply exist_proper; intros i. apply exist_proper; intros pattern.
    rewrite try_pattern_yields. setoid_rewrite try_pattern_None.
    naive_solver. }
  split_and!; [done| |].
  - destruct allLists as [|l0 allLists].
    { cbn. split; [|done]. intros _ ? ? _. apply yields_no_lists. }
    rewrite suggestListMovement_cons, scan_patterns_None.
    setoid_rewrite try_pattern_None. naive_solver.
  - intros s (i & pattern & _ & (_ & l & _ & Hne & ->) & _)%Hsome. done.
Qed.

(** the card of the specification's scenario: "testing" sends it to the
    list Testing *)
Lemma suggestListMovement_spec_witness :
  suggestListMovement Examples.deploy Examples.lists
  = Some {| listId := "l2"; listTitle := "Testing";
            reason := "Keywords suggest task needs testing/review" |} ∧
  "l2" ≠ Card.list Examples.deploy.
Proof.
  assert (suggestListMovement Examples.deploy Examples.lists
          = Some {| listId := "l2"; listTitle := "Testing";
                    reason := "Keywords suggest task needs testing/review" |})
    as Hrun by (vm_compute; reflexivity).
  split; [exact Hrun|].
  exact (proj2 (proj2 (suggestListMovement_spec Examples.deploy Examples.lists))
           _ Hrun).
Defined.

End ListMovement.

(** ** Properties of the related-card finder *)
Section RelatedCards.
Import JS Recommendations Spec.

Lemma by_similarity_desc_pos (a b : RelatedCard) :
  (0 < by_similarity_desc a b)%Qc ↔ (similarity a < similarity b)%Qc.
Proof. unfold by_similarity_desc, Qcminus. by rewrite <- Qclt_minus_iff. Qed.

Lemma sort_insert_perm (x : RelatedCard) (l : list RelatedCard) :
  sort_insert by_similarity_desc x l ≡ₚ x :: l.
Proof.
  induction l as [|y l IH]; [done|]. cbn. case_decide; [|done].
  by rewrite IH, Permutation_swap.
Qed.

Lemma sort_perm (l : list RelatedCard) : sort by_similarity_desc l ≡ₚ l.
Proof.
  induction l as [|x l IH]; [done|]. cbn. fold (sort by_similarity_desc l).
  by rewrite sort_insert_perm, IH.
Qed.

Lemma sort_insert_sorted (x : RelatedCard) (l : list RelatedCard) :
  StronglySorted descending l →
  StronglySorted descending (sort_insert by_similarity_desc x l).
Proof.
  induction l as [|y l IH]; cbn.
  - intros _. by repeat constructor.
  - rewrite StronglySorted_cons. intros [Hy Hl]. case_decide as Hlt.
    + rewrite by_similarity_desc_pos in Hlt.
      apply StronglySorted_cons. split; [|by apply IH].
      rewrite sort_insert_perm. constructor; [|done].
      by apply Qclt_le_weak.
    + rewrite by_similarity_desc_pos in Hlt. apply Qcnot_lt_le in Hlt.
      apply StronglySorted_cons. split; [|by apply StronglySorted_cons].
      constructor; [done|].
      eapply Forall_impl; [exact Hy|]. intros z Hz. unfold descending in *.
      by etrans.
Qed.

Lemma sort_sorted (l : list RelatedCard) :
  StronglySorted descending (sort by_similarity_desc l).
Proof.
  induction l as [|x l IH]; [constructor|]. cbn. by apply sort_insert_sorted.
Qed.

(** the cards of one score keep their order: the sort is stable *)
Lemma sort_insert_stable (q : Qc) (x : RelatedCard) (l : list RelatedCard) :
  filter (λ r, similarity r = q) (sort_insert by_similarity_desc x l)
  = filter (λ r, similarity r = q) (x :: l).
Proof.
  induction l as [|y l IH]; [done|]. cbn [sort_insert]. case_decide as Hlt; [|done].
  rewrite by_similarity_desc_pos in Hlt.
  rewrite (filter_cons _ y), IH, !(filter_cons _ x), (filter_cons _ y).
  destruct (decide (similarity x = q)) as [Hx|Hx]; [|done].
  destruct (decide (similarity y = q)) as [Hy|Hy]; [|done].
  rewrite Hx, Hy in Hlt. by apply Qclt_not_eq in Hlt.
Qed.

Lemma sort_stable (q : Qc) (l : list RelatedCard) :
  filter (λ r, similarity r = q) (sort by_similarity_desc l)
  = filter (λ r, similarity r = q) l.
Proof.
  induction l as [|x l IH]; [done|]. cbn. fold (sort by_similarity_desc l).
  by rewrite sort_insert_stable, !filter_cons, IH.
Qed.

Lemma sort_ranking (l : list RelatedCard) :
  ranking l (sort by_similarity_desc l).
Proof.
  split_and!; [apply sort_perm|apply sort_sorted|intros q; apply sort_stable].
Qed.

(** a ranking is determined by the candidates it ranks *)
Lemma ranking_unique (kept ranked ranked' : list RelatedCard) :
  ranking kept ranked → ranking kept ranked' → ranked = ranked'.
Proof.
  intros (Hperm & Hsorted & Hstable) (Hperm' & Hsorted' & Hstable').
  assert (ranked ≡ₚ ranked') as Hp by by rewrite Hperm, Hperm'.
  assert (∀ q, filter (λ r, similarity r = q) ranked
               = filter (λ r, similarity r = q) ranked') as Hf
    by (intros q; by rewrite Hstable, Hstable').
  clear Hperm Hperm' Hstable Hstable' kept.
  revert ranked' Hp Hsorted' Hf.
  induction ranked as [|x l1 IH]; intros [|y l2] Hp Hs2 Hf.
  - done.
  - by apply Permutation_nil_cons in Hp.
  - symmetry in Hp. by apply Permutation_nil_cons in Hp.
  - apply StronglySorted_cons in Hsorted as [Hx Hs1].
    apply StronglySorted_cons in Hs2 as [Hy Hs2].
    assert (similarity x = similarity y) as Hxy.
    { apply Qcle_antisym.
      - assert (x ∈ y :: l2) as [->|Hin]%elem_of_cons
          by (rewrite <- Hp; by left); [done|].
        by apply (proj1 (Forall_forall _ _) Hy).
      - assert (y ∈ x :: l1) as [->|Hin]%elem_of_cons
          by (rewrite Hp; by left); [done|].
        by apply (proj1 (Forall_forall _ _) Hx). }
    pose proof (Hf (similarity x)) as Hhead.
    rewrite filter_cons_True, filter_cons_True in Hhead by done.
    injection Hhead as <- _. f_equal.
    apply IH; [done|by apply (Permutation_cons_inv Hp)|done|].
    intros q. specialize (Hf q). rewrite !filter_cons in Hf.
    destruct (decide (similarity x = q)); [by injection Hf|done].
Qed.

Lemma slice0_nil {A} (limit : Z) : slice0 limit (@nil A) = [].
Proof. unfold slice0. destruct (0 <=? limit); apply take_nil. Qed.

Lemma findRelatedCards_unfold (c : Card.t) (allCards : list Card.t)
    (limit : Z) (threshold : Qc) :
  findRelatedCards c allCards limit threshold
  = if decide (words_of c = ∅) then []
    else slice0 limit (sort by_similarity_desc (candidates c allCards threshold)).
Proof.
  unfold findRelatedCards, candidates, words_of, score.
  destruct allCards as [|o allCards].
  { case_decide; [done|]. cbn. by rewrite slice0_nil. }
  destruct (decide (size _ = 0%nat)) as [Hsz|Hsz].
  - apply size_empty_iff, leibniz_equiv in Hsz. by rewrite decide_True.
  - rewrite decide_False; [done|]. intros Hempty. by rewrite Hempty in Hsz.
Qed.


Lemma elem_of_candidates (c : Card.t) (allCards : list Card.t) (threshold : Qc)
    (r : RelatedCard) :
  r ∈ candidates c allCards threshold →
  summary_id (card r) ≠ Card._id c ∧ (threshold ≤ similarity r)%Qc ∧
  ∃ o, o ∈ allCards ∧ card r = summary_of o ∧
       similarity r = jaccardSimilarity (words_of c) (words_of o).
Proof.
  unfold candidates.
  intros [Hth (o & -> & [Hid Ho]%list_elem_of_filter)%list_elem_of_fmap]%list_elem_of_filter.
  split_and!; [done..|]. by exists o.
Qed.

Lemma elem_of_slice0 {A} (limit : Z) (l : list A) (x : A) :
  x ∈ slice0 limit l → x ∈ l.
Proof.
  unfold slice0. destruct (0 <=? limit); intros (i & Hi & _)%elem_of_take;
    by eapply list_elem_of_lookup_2.
Qed.




End RelatedCards.



(** ** Properties of the date parser *)
Section DateParser.
Import JS Recommendations Spec.

Variable tza : Z.

Lemma TimeClip_Some (t u : Z) :
  TimeClip t = Some u ↔ u = t ∧ - maxTime ≤ t ≤ maxTime.
Proof.
  unfold TimeClip. destruct (Z.leb_spec (Z.abs t) maxTime); split.
  - intros [= <-]. lia.
  - by intros [-> _].
  - done.
  - lia.
Qed.

Lemma TimeClip_idem (t : Z) : TimeClip t ≫= TimeClip = TimeClip t.
Proof.
  destruct (TimeClip t) as [u|] eqn:Hu; [|done]. cbn.
  apply TimeClip_Some in Hu as [-> ?]. by apply TimeClip_Some.
Qed.

Lemma MakeDate_split (t : Z) : MakeDate (Day t) (TimeWithinDay t) = t.
Proof.
  unfold MakeDate, Day, TimeWithinDay, msPerDay.
  pose proof (Z.div_mod t 86400000). lia.
Qed.

Lemma Day_MakeDate (day time : Z) :
  0 ≤ time < msPerDay →
  Day (MakeDate day time) = day ∧ TimeWithinDay (MakeDate day time) = time.
Proof.
  unfold MakeDate, Day, TimeWithinDay, msPerDay. intros Htime. split.
  - symmetry. apply (Z.div_unique _ _ day time); lia.
  - symmetry. apply (Z.mod_unique _ _ day time); lia.
Qed.

Lemma MakeDate_add_days (t days : Z) :
  MakeDate (Day t + days) (TimeWithinDay t) = t + days * msPerDay.
Proof.
  rewrite <- (MakeDate_split t) at 3. unfold MakeDate. lia.
Qed.

(** the year of the era and the day of the year stay in their ranges *)
Lemma year_of_era_bounds (doe : Z) :
  0 ≤ doe < 146097 →
  0 ≤ yoe_of_doe doe ≤ 399 ∧ 0 ≤ doy_of_doe doe ≤ 365.
Proof.
  intros Hdoe. unfold doy_of_doe, yoe_of_doe. cbv zeta.
  Z.div_mod_to_equations. lia.
Qed.

(** the month found for a day of the year starts on or before that day,
    and the day of the month counts from its start *)
Lemma month_of_doy_spec (doy : Z) :
  0 ≤ doy ≤ 365 →
  1 ≤ month_of_doy doy ≤ 12 ∧
  doy_of_month (month_of_doy doy) + day_of_doy doy - 1 = doy.
Proof.
  intros Hdoy. unfold doy_of_month, month_of_doy, day_of_doy. cbv zeta.
  assert (0 ≤ (5 * doy + 2) / 153 ≤ 11) as Hmp
    by (Z.div_mod_to_equations; lia).
  set (mp := (5 * doy + 2) / 153) in *.
  destruct (Z.ltb_spec mp 10).
  - rewrite (proj2 (Z.ltb_lt 2 (mp + 3))) by lia.
    replace (mp + 3 - 3) with mp by lia. lia.
  - rewrite (proj2 (Z.ltb_ge 2 (mp - 9))) by lia.
    replace (mp - 9 + 9) with mp by lia. lia.
Qed.

(** the first day of the month of [t] is [DateFromTime(t) - 1] days before
    the day of [t] *)
Lemma MakeDay_same_month (t date : Z) :
  MakeDay (YearFromTime t) (MonthFromTime t) date
  = Day t - (DateFromTime t - 1) + date - 1.
Proof.
  unfold MakeDay, YearFromTime, MonthFromTime, DateFromTime, civil_from_days.
  cbn [fst snd].
  set (z := Day t + 719468). set (era := z / 146097).
  set (doe := z - era * 146097).
  assert (0 ≤ doe < 146097) as Hdoe.
  { subst doe era. pose proof (Z.div_mod z 146097).
    pose proof (Z.mod_pos_bound z 146097). lia. }
  destruct (year_of_era_bounds doe Hdoe) as [Hyoe Hdoy].
  destruct (month_of_doy_spec (doy_of_doe doe) Hdoy) as [Hm Hback].
  set (yoe := yoe_of_doe doe) in *.
  set (m := month_of_doy (doy_of_doe doe)) in *.
  set (d := day_of_doy (doy_of_doe doe)) in *.
  rewrite (Z.div_small (m - 1) 12), (Z.mod_small (m - 1) 12) by lia.
  replace (m - 1 + 1) with m by lia.
  unfold days_from_civil.
  assert ((if m <=? 2
           then yoe + era * 400 + (if m <=? 2 then 1 else 0) + 0 - 1
           else yoe + era * 400 + (if m <=? 2 then 1 else 0) + 0)
          = yoe + era * 400) as -> by (destruct (m <=? 2); lia).
  rewrite (Z.div_add yoe era 400), (Z.div_small yoe 400) by lia.
  replace (yoe + era * 400 - (0 + era) * 400) with yoe by lia.
  assert (doy_of_doe doe = doe - (365 * yoe + yoe / 4 - yoe / 100)) as Hdoy_def
    by done.
  assert (doe = Day t + 719468 - era * 146097) as Hdoe_def by done.
  lia.
Qed.

(** [d.setDate(d.getDate() + days)] moves [d] by [days] days *)
Lemma setDate_getDate (d : Date) (days : option Z) :
  setDate tza d (num_add (getDate tza d) days)
  = t ← d; k ← days;
    TimeClip (UTC tza (MakeDate (Day (LocalTime tza t) + k)
                                (TimeWithinDay (LocalTime tza t)))).
Proof.
  destruct d as [t|], days as [k|]; try done.
  cbn -[DateFromTime YearFromTime MonthFromTime MakeDay Day TimeWithinDay
        MakeDate LocalTime UTC TimeClip].
  rewrite MakeDay_same_month. do 3 f_equal. lia.
Qed.

Lemma add_days_spec (clock days : Z) :
  add_days tza (Date_now clock) (Some days) = end_of_day_after tza clock days.
Proof.
  unfold add_days, end_of_day_after. rewrite setDate_getDate.
  unfold Date_now. by destruct (TimeClip clock).
Qed.

Lemma today_spec (clock : Z) :
  Date_of_value (setHours_end_of_day tza (Date_now clock))
  = end_of_day_after tza clock 0.
Proof.
  unfold Date_of_value, end_of_day_after, Date_now, setHours_end_of_day.
  destruct (TimeClip clock) as [t|] eqn:Ht; [|done]. cbn.
  rewrite TimeClip_idem, MakeDate_add_days.
  apply TimeClip_Some in Ht as [-> Hrange].
  unfold UTC, LocalTime.
  replace (clock + tza + 0 * msPerDay - tza) with clock by lia.
  by rewrite (proj2 (TimeClip_Some clock clock)).
Qed.

Lemma WeekDay_range (t : Z) : 0 ≤ WeekDay t < 7.
Proof. unfold WeekDay. apply Z.mod_pos_bound. lia. Qed.

Lemma days_until_friday (g : Z) :
  0 ≤ g < 7 → Z.rem (5 - g + 7) 7 = (5 - g) mod 7.
Proof.
  intros Hg. rewrite Z.rem_mod_nonneg by lia.
  replace (5 - g + 7) with (5 - g + 1 * 7) by lia. apply Z_mod_plus_full.
Qed.

Lemma end_of_week_spec (clock : Z) :
  (let endOfWeek := Date_now clock in
   let daysUntilFriday := g ← getDay tza endOfWeek; Some (Z.rem (5 - g + 7) 7) in
   let step := d ← daysUntilFriday; Some (if d =? 0 then 7 else d) in
   add_days tza endOfWeek step)
  = (_ ← TimeClip clock; end_of_day_after tza clock (days_to_friday tza clock)).
Proof.
  cbn zeta. unfold Date_now at 2.
  destruct (TimeClip clock) as [t|] eqn:Ht; [|by unfold Date_now; rewrite Ht].
  pose proof Ht as [-> _]%TimeClip_Some. cbn.
  rewrite days_until_friday by apply WeekDay_range.
  rewrite <- add_days_spec. unfold Date_now. by rewrite Ht.
Qed.

(** the code and the ordered rules agree *)
Lemma parseDateKeywords_parse_date (clock : Z) (text : string) :
  parseDateKeywords tza clock (Some text) = parse_date tza clock text.
Proof.
  unfold parseDateKeywords, parse_date.
  destruct text as [|c text]; [done|]. cbn [truthy negb].
  set (lowerText := toLowerCase (String c text)).
  unfold rule_order. cbn [List.find rule_matches].
  destruct (includes lowerText "today"); [by rewrite today_spec|].
  destruct (includes lowerText "tomorrow"); [by rewrite add_days_spec|].
  destruct (includes lowerText "next week"); [by rewrite add_days_spec|].
  destruct (includes lowerText "this week" || includes lowerText "end of week"
            || includes lowerText "eow").
  { cbn [fmap option_fmap option_map rule_date]. f_equal. apply end_of_week_spec. }
  destruct (includes lowerText "next month"); [done|].
  unfold captured.
  destruct (match_in "day" lowerText) as [ds|] eqn:Hdays.
  { rewrite bool_decide_eq_true_2 by done.
    cbn [fmap option_fmap option_map rule_date]. unfold captured.
    by rewrite Hdays, add_days_spec. }
  rewrite bool_decide_eq_false_2 by by intros [? ?].
  destruct (match_in "week" lowerText) as [ws|] eqn:Hweeks.
  { rewrite bool_decide_eq_true_2 by done.
    cbn [fmap option_fmap option_map rule_date]. unfold captured.
    rewrite Hweeks, add_days_spec. cbn [default id]. do 2 f_equal. lia. }
  by rewrite bool_decide_eq_false_2 by by intros [? ?].
Qed.

Lemma find_at_index {A} (f : A → bool) (l : list A) (i : nat) (x : A) :
  l !! i = Some x → f x = true →
  (∀ (j : nat) (y : A), (j < i)%nat → l !! j = Some y → f y = false) →
  List.find f l = Some x.
Proof.
  intros Hi Hx Hbefore. apply find_first.
  exists (take i l), (drop (S i) l). split_and!; [|done|].
  - by rewrite take_drop_middle.
  - intros y (j & Hj & Hlt)%elem_of_take. by apply (Hbefore j).
Qed.

Lemma find_none_all {A} (f : A → bool) (l : list A) :
  (∀ x, x ∈ l → f x = false) → List.find f l = None.
Proof.
  induction l as [|a l IH]; [done|]. intros Hall. cbn.
  rewrite (Hall a) by by left. apply IH. intros x Hx. apply Hall. by right.
Qed.

Lemma starts_with_map (f : ascii → ascii) (p s : string) :
  starts_with p s = true →
  starts_with (string_map f p) (string_map f s) = true.
Proof.
  revert s. induction p as [|a p IH]; intros [|b s]; cbn; try done.
  rewrite !andb_true_iff, !bool_decide_eq_true. intros [-> Hp]. auto.
Qed.

Lemma includes_map (f : ascii → ascii) (s sub : string) :
  includes s sub = true →
  includes (string_map f s) (string_map f sub) = true.
Proof.
  induction s as [|c s IH]; cbn.
  - rewrite !orb_false_r. apply (starts_with_map f sub EmptyString).
  - rewrite !orb_true_iff. intros [Hhere|Hlater]; [left|right; by apply IH].
    apply (starts_with_map f sub (String c s) Hhere).
Qed.

(** a keyword written in lower case is found whatever the case of the text *)
Lemma includes_toLowerCase (s keyword : string) :
  toLowerCase keyword = keyword →
  includes s keyword = true → includes (toLowerCase s) keyword = true.
Proof.
  intros Hk Hin. rewrite <- Hk. by apply includes_map.
Qed.

Lemma TimeWithinDay_range (t : Z) : 0 ≤ TimeWithinDay t < msPerDay.
Proof. unfold TimeWithinDay, msPerDay. apply Z.mod_pos_bound. lia. Qed.

(** within the range of time values, the date of the rule is the end of
    the local day [days] days ahead *)
Lemma end_of_day_after_value (clock days : Z) :
  - maxTime ≤ clock → 0 ≤ days → clock + (days + 1) * msPerDay ≤ maxTime →
  end_of_day_after tza clock days
  = Some (UTC tza (MakeDate (Day (LocalTime tza clock) + days) 86399999)).
Proof.
  intros Hlo Hdays Hhi. unfold end_of_day_after.
  assert (0 < msPerDay) as Hms by done.
  rewrite (proj2 (TimeClip_Some clock clock)) by nia. cbn [mbind option_bind].
  rewrite MakeDate_add_days.
  assert (UTC tza (LocalTime tza clock + days * msPerDay) = clock + days * msPerDay)
    as -> by (unfold UTC, LocalTime; lia).
  rewrite (proj2 (TimeClip_Some _ (clock + days * msPerDay))) by nia.
  cbn [mbind option_bind].
  assert (Day (LocalTime tza (clock + days * msPerDay))
          = Day (LocalTime tza clock) + days) as ->.
  { unfold LocalTime.
    replace (clock + days * msPerDay + tza) with (clock + tza + days * msPerDay) by lia.
    rewrite <- MakeDate_add_days. apply Day_MakeDate, TimeWithinDay_range. }
  apply TimeClip_Some. split; [done|].
  pose proof (MakeDate_split (LocalTime tza clock)) as Hsplit.
  pose proof (TimeWithinDay_range (LocalTime tza clock)) as Hrange.
  unfold UTC, MakeDate, LocalTime in *. unfold msPerDay in *. lia.
Qed.

(** C3: the rules are tried in the order today, tomorrow, next week,
    this week / end of week / eow, next month, in N days, in N weeks,
    and the result is the date of the first rule that matches the
    lower-cased text, whatever other rules match; nothing when none does.
    A text with "today" and "next week" gives the end of the current
    local day. *)
Theorem parseDateKeywords_first_rule (clock : Z) (text : string) :
  let lowerText := toLowerCase text in
  (∀ (i : nat) (r : Rule),
     rule_order !! i = Some r → rule_matches lowerText r = true →
     (∀ (j : nat) (earlier : Rule),
        (j < i)%nat → rule_order !! j = Some earlier →
        rule_matches lowerText earlier = false) →
     parseDateKeywords tza clock (Some text)
     = Some (rule_date tza clock lowerText r)) ∧
  ((∀ r, r ∈ rule_order → rule_matches lowerText r = false) →
     parseDateKeywords tza clock (Some text) = None) ∧
  (includes lowerText "today" = true → includes lowerText "next week" = true →
     parseDateKeywords tza clock (Some text)
     = Some (end_of_day_after tza clock 0)) ∧
  (includes text "today" = true → includes text "next week" = true →
     - maxTime ≤ clock → clock + msPerDay ≤ maxTime →
     parseDateKeywords tza clock (Some text)
     = Some (Some (UTC tza (MakeDate (Day (LocalTime tza clock)) 86399999)))).
Proof.
  cbn zeta. rewrite parseDateKeywords_parse_date. unfold parse_date.
  assert (includes (toLowerCase text) "today" = true →
          List.find (rule_matches (toLowerCase text)) rule_order = Some today)
    as Htoday.
  { intros Hin. by apply (find_at_index _ _ 0%nat); [| |lia]. }
  split_and!.
  - intros i r Hi Hr Hearlier. by rewrite (find_at_index _ _ i r).
  - intros Hnone. by rewrite find_none_all.
  - intros Hin _. by rewrite Htoday.
  - intros Hin _ Hlo Hhi. rewrite Htoday by by apply includes_toLowerCase.
    cbn [fmap option_fmap option_map rule_date].
    rewrite end_of_day_after_value by lia. by rewrite Z.add_0_r.
Qed.

(** the number of days to the coming Friday *)
Lemma friday_arith (D : Z) :
  let W := D mod 7 in
  let d := (5 - W) mod 7 in
  let k := if d =? 0 then 7 else d in
  1 ≤ k ≤ 7 ∧ (D + k) mod 7 = 5 ∧
  (∀ j, 1 ≤ j < k → (D + j) mod 7 ≠ 5) ∧ (W = 5 → k = 7).
Proof.
  cbn zeta. destruct (Z.eqb_spec ((5 - D mod 7) mod 7) 0) as [Hd|Hd];
    cbv beta iota.
  - split; [lia|]. split; [|split; [|done]].
    + revert Hd. Z.div_mod_to_equations. lia.
    + intros j Hj. revert Hd. Z.div_mod_to_equations. lia.
  - split; [|split; [|split]].
    + revert Hd. Z.div_mod_to_equations. lia.
    + Z.div_mod_to_equations. lia.
    + intros j Hj. revert Hj. Z.div_mod_to_equations. lia.
    + intros HW. rewrite HW in Hd. done.
Qed.

Lemma WeekDay_add_days (t j : Z) :
  WeekDay (t + j * msPerDay) = (Day t + 4 + j) mod 7.
Proof.
  unfold WeekDay. f_equal.
  rewrite <- MakeDate_add_days.
  rewrite (proj1 (Day_MakeDate _ _ (TimeWithinDay_range t))). lia.
Qed.

(** C4: when the text has "this week", "end of week" or "eow" and none of
    "today", "tomorrow", "next week", the result is 23:59:59.999 local time
    of the first Friday after the current local day: [k] days ahead with
    [k] between 1 and 7, and 7 when the current day is a Friday. *)
Theorem parseDateKeywords_end_of_week (clock : Z) (text : string) :
  let lowerText := toLowerCase text in
  let today_local := LocalTime tza clock in
  includes lowerText "this week" || includes lowerText "end of week"
    || includes lowerText "eow" = true →
  includes lowerText "today" = false →
  includes lowerText "tomorrow" = false →
  includes lowerText "next week" = false →
  - maxTime ≤ clock → clock + 8 * msPerDay ≤ maxTime →
  ∃ (r k : Z),
    parseDateKeywords tza clock (Some text) = Some (Some r) ∧
    1 ≤ k ≤ 7 ∧
    Day (LocalTime tza r) = Day today_local + k ∧
    TimeWithinDay (LocalTime tza r) = 86399999 ∧
    WeekDay (LocalTime tza r) = 5 ∧
    (∀ j, 1 ≤ j < k → WeekDay (today_local + j * msPerDay) ≠ 5) ∧
    (WeekDay today_local = 5 → k = 7).
Proof.
  cbn zeta. intros Hweek Htoday Htomorrow Hnext Hlo Hhi.
  destruct (friday_arith (Day (LocalTime tza clock) + 4))
    as (Hk & Hfriday & Hfirst & Hroll).
  fold (WeekDay (LocalTime tza clock)) in Hk, Hfriday, Hfirst, Hroll.
  fold (days_to_friday tza clock) in Hk, Hfriday, Hfirst, Hroll.
  set (k := days_to_friday tza clock) in *.
  exists (UTC tza (MakeDate (Day (LocalTime tza clock) + k) 86399999)), k.
  assert (LocalTime tza (UTC tza (MakeDate (Day (LocalTime tza clock) + k) 86399999))
          = MakeDate (Day (LocalTime tza clock) + k) 86399999) as ->
    by (unfold LocalTime, UTC; lia).
  assert (0 ≤ 86399999 < msPerDay) as Hend by done.
  destruct (Day_MakeDate (Day (LocalTime tza clock) + k) 86399999 Hend)
    as [Hday Htime].
  split; [|split; [exact Hk|split; [exact Hday|split; [exact Htime|
    split; [|split; [|exact Hroll]]]]]].
  - rewrite parseDateKeywords_parse_date. unfold parse_date.
    rewrite (find_at_index _ _ 3%nat end_of_week); [|done|done|].
    + cbn [fmap option_fmap option_map rule_date].
      rewrite (proj2 (TimeClip_Some clock clock)) by (unfold msPerDay in *; lia).
      cbn [mbind option_bind]. fold k.
      rewrite end_of_day_after_value; [done|done|lia|].
      unfold msPerDay in *. lia.
    + intros [|[|[|j]]] earlier Hj Hearlier; [| | |lia];
        by injection Hearlier as <-.
  - unfold WeekDay. rewrite Hday.
    by replace (Day (LocalTime tza clock) + k + 4)
      with (Day (LocalTime tza clock) + 4 + k) by lia.
  - intros j Hj. rewrite WeekDay_add_days. by apply Hfirst.
Qed.

End DateParser.

(** "today" wins over "next week" *)
Lemma parseDateKeywords_first_rule_witness :
  Recommendations.parseDateKeywords 0 Examples.clock
    (Some "Finish today, review next week")
  = Some (Some 1700006399999).
Proof.
  apply (proj2 (proj2 (proj2 (parseDateKeywords_first_rule 0 Examples.clock
                                "Finish today, review next week")))).
  - vm_compute. reflexivity.
  - vm_compute. reflexivity.
  - vm_compute. discriminate.
  - vm_compute. discriminate.
Defined.

(** on a Friday (17 November 2023) "eow" gives the Friday a week later *)
Lemma parseDateKeywords_end_of_week_witness :
  ∃ r k : Z,
    Recommendations.parseDateKeywords 0 (Examples.clock + 3 * JS.msPerDay)
      (Some "wrap up by EOW")
    = Some (Some r) ∧ k = 7.
Proof.
  destruct (parseDateKeywords_end_of_week 0 (Examples.clock + 3 * JS.msPerDay)
              "wrap up by EOW")
    as (r & k & Hrun & _ & _ & _ & _ & _ & Hroll).
  - vm_compute. reflexivity.
  - vm_compute. reflexivity.
  - vm_compute. reflexivity.
  - vm_compute. reflexivity.
  - vm_compute. discriminate.
  - vm_compute. discriminate.
  - exists r, k. split; [exact Hrun|]. apply Hroll. vm_compute. reflexivity.
Defined.

(** ** Properties of the Gemini adapter *)
Section GeminiAdapter.
Import JS Recommendations Gemini Spec.

Lemma from_first_open_spec (s t : string) :
  from_first_open s = Some t →
  ∃ pre rest, s = pre +:+ t ∧ t = String open_brace rest ∧ no_char open_brace pre.
Proof.
  induction s as [|c s IH]; [done|]. cbn. case_bool_decide as Hc.
  - intros [= <-]. subst c. by exists EmptyString, s.
  - intros (pre & rest & -> & -> & Hpre)%IH.
    exists (String c pre), rest. split_and!; [done..|].
    unfold no_char in *. cbn. by rewrite bool_decide_eq_false_2, Hpre.
Qed.

Lemma up_to_last_close_spec (s p : string) :
  up_to_last_close s = Some p →
  ∃ body post, s = p +:+ post ∧ p = body +:+ String close_brace EmptyString ∧
               no_char close_brace post.
Proof.
  revert p. induction s as [|c s IH]; [done|]. intros p. cbn.
  destruct (up_to_last_close s) as [p'|] eqn:Hs.
  - intros [= <-]. destruct (IH p' eq_refl) as (body & post & -> & -> & Hpost).
    by exists (String c body), post.
  - case_bool_decide as Hc; [|done]. intros [= <-]. subst c.
    exists EmptyString, s. split_and!; [done..|].
    clear IH. unfold no_char. induction s as [|c s IH]; [done|].
    cbn in Hs |- *. destruct (up_to_last_close s); [done|].
    case_bool_decide; [done|]. by apply IH.
Qed.

Lemma up_to_last_close_None (s : string) :
  up_to_last_close s = None ↔ no_char close_brace s.
Proof.
  unfold no_char. induction s as [|c s IH]; [done|]. cbn.
  destruct (up_to_last_close s).
  - split; [done|]. rewrite andb_true_iff. intros [_ Hs]. by apply IH in Hs.
  - case_bool_decide; cbn; [done|]. by rewrite <- IH.
Qed.

(** what the regular expression matches: the text from the first opening
    brace to the last closing brace *)
Lemma match_json_spec (text block : string) :
  match_json text = Some block →
  ∃ pre body post,
    text = pre +:+ block +:+ post ∧
    block = String open_brace body +:+ String close_brace EmptyString ∧
    no_char open_brace pre ∧ no_char close_brace post.
Proof.
  unfold match_json. destruct (from_first_open text) as [t|] eqn:Ht; [|done].
  cbn. intros Hblock.
  apply from_first_open_spec in Ht as (pre & rest & -> & -> & Hpre).
  apply up_to_last_close_spec in Hblock as (body & post & Hsplit & -> & Hpost).
  destruct body as [|b body].
  { rewrite append_nil_l, append_cons in Hsplit. by injection Hsplit. }
  rewrite !append_cons in Hsplit. injection Hsplit as <- Hrest.
  exists pre, body, post. split_and!; [|done..].
  by rewrite Hrest, !append_cons.
Qed.

Variable JSON : Type.
Variable JSON_parse : string → option JSON.
Variable prop : JSON → string → option JSON.
Variable GEMINI_API_KEY : option string.
Variable generateContent : string → Response.

(** C7, as amended: the adapter parses the text that runs from the first
    opening brace of the reply to its last closing brace; it returns null,
    and never throws, when the key is missing, when the call is rejected,
    when the reply has no text or no such block, and when the block does
    not parse; [getCardInsights] then returns null as well. *)
Theorem getAISuggestions_spec (c : Card.t) (boardLists : list BoardList.t)
    (boardCards : list Card.t) :
  let result :=
    getAISuggestions JSON JSON_parse GEMINI_API_KEY generateContent
      c boardLists boardCards in
  let insights :=
    getCardInsights JSON JSON_parse prop GEMINI_API_KEY generateContent
      c boardCards boardLists in
  let answer := generateContent (build_prompt c boardLists boardCards) in
  (∃ v, result = Return v) ∧ (∃ v, insights = Return v) ∧
  (key_missing GEMINI_API_KEY = true → result = Return None) ∧
  (∀ e, answer = Rejected e → result = Return None) ∧
  (answer = Resolved None → result = Return None) ∧
  (∀ text, key_missing GEMINI_API_KEY = false → answer = Resolved (Some text) →
     result = Return (match_json text ≫= JSON_parse)) ∧
  (∀ text block, match_json text = Some block →
     ∃ pre body post,
       text = pre +:+ block +:+ post ∧
       block = String open_brace body +:+ String close_brace EmptyString ∧
       no_char open_brace pre ∧ no_char close_brace post) ∧
  (result = Return None → insights = Return None).
Proof.
  cbn zeta. unfold getCardInsights, getAISuggestions, getAISuggestions_body.
  set (answer := generateContent _).
  split_and!.
  - destruct (key_missing _); [by eexists|].
    destruct answer as [e|[text|]]; cbn; try by eexists.
    destruct (match_json text) as [block|]; cbn; [|by eexists].
    destruct (JSON_parse block); by eexists.
  - destruct (key_missing _); [by eexists|].
    destruct answer as [e|[text|]]; cbn; try by eexists.
    destruct (match_json text) as [block|]; cbn; [|by eexists].
    destruct (JSON_parse block); by eexists.
  - by intros ->.
  - intros e ->. by destruct (key_missing _).
  - intros ->. by destruct (key_missing _).
  - intros text -> ->. cbn.
    destruct (match_json text) as [block|]; cbn; [|done].
    by destruct (JSON_parse block).
  - apply match_json_spec.
  - by intros ->.
Qed.

End GeminiAdapter.

(** a reply with one block that parses, and a key that is not set *)
Lemma getAISuggestions_spec_witness :
  Gemini.getAISuggestions unit Examples.parse_empty_object (Some "k")
    (Examples.answer "Here you are: {}") Examples.milk Examples.lists []
  = Gemini.Return (Some ()) ∧
  Gemini.getAISuggestions unit Examples.parse_empty_object None
    (Examples.answer "Here you are: {}") Examples.milk Examples.lists []
  = Gemini.Return None.
Proof.
  split.
  - pose proof (getAISuggestions_spec unit Examples.parse_empty_object
                  Examples.no_prop (Some "k") (Examples.answer "Here you are: {}")
                  Examples.milk Examples.lists []) as Hspec.
    cbv zeta in Hspec. destruct Hspec as (_ & _ & _ & _ & _ & Hparse & _).
    rewrite (Hparse "Here you are: {}"); vm_compute; reflexivity.
  - pose proof (getAISuggestions_spec unit Examples.parse_empty_object
                  Examples.no_prop None (Examples.answer "Here you are: {}")
                  Examples.milk Examples.lists []) as Hspec.
    cbv zeta in Hspec. destruct Hspec as (_ & _ & Hkey & _).
    apply Hkey. vm_compute. reflexivity.
Defined.

(** C7 as stated fails: on a reply with two blocks the code does not take
    the first balanced block, it takes everything from the first opening
    brace to the last closing brace, which does not parse, and returns
    null although the first block is a JSON object. *)
Lemma getAISuggestions_counterexample :
  Spec.first_balanced_block Examples.reply = Some "{}" ∧
  Gemini.match_json Examples.reply = Some "{} or, with braces, {}" ∧
  Examples.parse_empty_object "{}" = Some () ∧
  Gemini.getAISuggestions unit Examples.parse_empty_object (Some "k")
    (Examples.answer Examples.reply) Examples.milk Examples.lists []
  = Gemini.Return None.
Proof. split_and!; vm_compute; reflexivity. Qed.

(** a card whose title and description are empty strings has no date, no
    list and no related card to suggest: it gets the three tips *)
Lemma analyzeCard_empty_text (tza clock_title clock_description : Z)
    (c : Recommendations.Card.t) (boardCards : list Recommendations.Card.t)
    (boardLists : list Recommendations.BoardList.t) :
  Recommendations.Card.title c = Some EmptyString →
  Recommendations.Card.description c = Some EmptyString →
  Recommendations.analyzeCard tza clock_title clock_description c
    boardCards boardLists
  = {| Recommendations.suggestedDueDates := [];
       Recommendations.suggestedListMovement := None;
       Recommendations.relatedCards := [];
       Recommendations.smartTips := Some Recommendations.generic_tips |}.
Proof.
  intros Htitle Hdescription.
  assert (Recommendations.card_text c = " ") as Htext
    by (unfold Recommendations.card_text; by rewrite Htitle, Hdescription).
  assert (Recommendations.suggestListMovement c boardLists = None) as Hlist.
  { unfold Recommendations.suggestListMovement. rewrite Htext.
    destruct boardLists; [done|]. vm_compute. reflexivity. }
  assert (Recommendations.findRelatedCards c boardCards
            Recommendations.default_limit Recommendations.default_threshold = [])
    as Hrelated.
  { unfold Recommendations.findRelatedCards. rewrite Htext.
    destruct boardCards; [done|]. by rewrite decide_True by by vm_compute. }
  unfold Recommendations.analyzeCard.
  rewrite Hlist, Hrelated, Htitle, Hdescription. reflexivity.
Qed.

(** C8 fails on the code: a description that is undefined is printed into
    the text as the word "undefined", so two cards without a description
    and without a common word are related with score 1/3; with an empty
    description they are not. *)
Lemma findRelatedCards_undefined_description :
  "undefined" ∈ Spec.words_of Examples.alpha ∧
  Recommendations.extractWords (Recommendations.Card.title Examples.alpha)
    ∩ Recommendations.extractWords (Recommendations.Card.title Examples.beta) = ∅ ∧
  Recommendations.card
    <$> Recommendations.findRelatedCards Examples.alpha
          [Examples.alpha; Examples.beta] 5 Recommendations.default_threshold
  = [Recommendations.summary_of Examples.beta] ∧
  Recommendations.findRelatedCards Examples.alpha_empty
    [Examples.alpha_empty; Examples.beta_empty] 5 Recommendations.default_threshold
  = [].
Proof.
  split_and!.
  - apply (bool_decide_unpack _). vm_compute. exact I.
  - apply (bool_decide_unpack _). vm_compute. exact I.
  - vm_compute. reflexivity.
  - vm_compute. reflexivity.
Qed.

(** ** Further properties of the similarity engine *)
Section SimilarityMore.
Import JS Recommendations.

Lemma fraction_eq_zero (i : nat) (u : positive) :
  Q2Qc (Z.of_nat i # u) = 0%Qc ↔ i = 0%nat.
Proof.
  change 0%Qc with (Q2Qc 0). rewrite Q2Qc_eq_iff. unfold Qeq. cbn. lia.
Qed.

Lemma fraction_eq_one (i u : nat) :
  (0 < u)%nat → Q2Qc (Z.of_nat i # Pos.of_nat u) = 1%Qc ↔ i = u.
Proof.
  intros Hu. change 1%Qc with (Q2Qc 1). rewrite Q2Qc_eq_iff. unfold Qeq. cbn.
  rewrite Zpos_of_nat by done. lia.
Qed.

Lemma jaccardSimilarity_same (A : gset string) :
  A ≠ ∅ → jaccardSimilarity A A = 1%Qc.
Proof.
  intros Hne. rewrite jaccardSimilarity_unfold.
  assert (A ∪ A = A) as -> by set_solver.
  assert (A ∩ A = A) as -> by set_solver.
  case_decide as Hsz.
  - apply size_empty_iff, leibniz_equiv in Hsz. done.
  - apply fraction_one. lia.
Qed.

(** X1: two word sets have similarity 0 exactly when they share no word. *)
Theorem jaccardSimilarity_zero_iff (A B : gset string) :
  jaccardSimilarity A B = 0%Qc ↔ A ∩ B = ∅.
Proof.
  rewrite jaccardSimilarity_unfold. case_decide as Hsz.
  - apply size_empty_iff, leibniz_equiv in Hsz. split; [|done]. intros _.
    set_solver.
  - rewrite fraction_eq_zero. rewrite size_empty_iff. by rewrite leibniz_equiv_iff.
Qed.

(** X2: two word sets have similarity 1 exactly when they are the same
    non-empty set. *)
Theorem jaccardSimilarity_one_iff (A B : gset string) :
  jaccardSimilarity A B = 1%Qc ↔ A = B ∧ A ≠ ∅.
Proof.
  rewrite jaccardSimilarity_unfold. case_decide as Hsz.
  - apply size_empty_iff, leibniz_equiv in Hsz. split; [done|].
    intros [-> Hne]. destruct Hne. set_solver.
  - rewrite fraction_eq_one by lia. split.
    + intros Hsize.
      assert (A ∩ B ≡ A ∪ B) as Heq.
      { apply set_subseteq_size_equiv; [set_solver|lia]. }
      split; [set_solver|]. intros ->. apply Hsz.
      assert (∅ ∪ B ≡ ∅) as -> by set_solver. apply size_empty.
    + intros [-> _]. f_equal; set_solver.
Qed.

End SimilarityMore.

(** ** Further properties of the tokenizer *)
Section TokenizerMore.
Import JS Recommendations Spec.

Lemma lower_char_idem (c : ascii) : lower_char (lower_char c) = lower_char c.
Proof. destruct c as [[] [] [] [] [] [] [] []]; by vm_compute. Qed.

Lemma toLowerCase_idem (t : string) : toLowerCase (toLowerCase t) = toLowerCase t.
Proof.
  unfold toLowerCase. induction t as [|c t IH]; [done|]. cbn.
  by rewrite lower_char_idem, IH.
Qed.

Lemma truthy_string_map (f : ascii → ascii) (t : string) :
  truthy (string_map f t) = truthy t.
Proof. by destruct t. Qed.

Lemma string_map_append (f : ascii → ascii) (a b : string) :
  string_map f (a +:+ b) = string_map f a +:+ string_map f b.
Proof.
  induction a as [|x a IH]; [done|]. rewrite append_cons. cbn.
  by rewrite IH, append_cons.
Qed.

(** X3: the tokenizer does not see the case of the letters: two texts with
    the same lower-case form have the same word set, and a text has the
    word set of its lower-case form. *)
Theorem extractWords_case_insensitive (t t' : string) :
  (toLowerCase t = toLowerCase t' →
   extractWords (Some t) = extractWords (Some t')) ∧
  extractWords (Some (toLowerCase t)) = extractWords (Some t).
Proof.
  assert (∀ s s', toLowerCase s = toLowerCase s' →
                  extractWords (Some s) = extractWords (Some s')) as Hcase.
  { intros s s' Heq. unfold extractWords.
    rewrite <- (truthy_string_map lower_char s),
            <- (truthy_string_map lower_char s').
    fold (toLowerCase s). fold (toLowerCase s'). by rewrite Heq. }
  split; [apply Hcase|]. apply Hcase, toLowerCase_idem.
Qed.

Lemma head_space_append (a : string) (c : ascii) (b : string) :
  is_space c = true →
  head_space (a +:+ String c b)
  = match a with EmptyString => true | String y _ => is_space y end.
Proof. intros Hc. by destruct a. Qed.

(** the pieces of two texts joined by a white space character *)
Lemma split_ws_join_pieces (a b : string) (c : ascii) :
  is_space c = true →
  ∃ p ps qs,
    split_ws a = p :: ps ∧ split_ws (a +:+ String c b) = p :: qs ∧
    ∀ w, w ≠ EmptyString → w ∈ qs ↔ w ∈ ps ∨ w ∈ split_ws b.
Proof.
  intros Hc. induction a as [|x a (p & ps & qs & Ha & Hab & Hqs)].
  - rewrite append_nil_l, split_ws_space by done.
    destruct (head_space b) eqn:Hb.
    + destruct (split_ws_head_space b Hb) as [t Ht]. rewrite Ht.
      exists EmptyString, [], t. split_and!; [done..|].
      intros w Hw. rewrite elem_of_cons, elem_of_nil. naive_solver.
    + exists EmptyString, [], (split_ws b). split_and!; [done..|].
      intros w Hw. rewrite elem_of_nil. naive_solver.
  - rewrite append_cons. destruct (is_space x) eqn:Hx.
    + rewrite !split_ws_space, head_space_append, Ha, Hab by done.
      destruct a as [|y a].
      * cbn in Ha. simplify_eq. cbn [head_space].
        exists EmptyString, [EmptyString], qs. split_and!; [done..|].
        intros w Hw. rewrite Hqs by done. rewrite elem_of_nil.
        rewrite list_elem_of_singleton. naive_solver.
      * cbn [head_space]. destruct (is_space y).
        -- by exists p, ps, qs.
        -- exists EmptyString, (p :: ps), (p :: qs). split_and!; [done..|].
           intros w Hw. rewrite !elem_of_cons, Hqs by done. naive_solver.
    + destruct (split_ws_word x a Hx) as (p1 & ps1 & Hs1 & ->).
      destruct (split_ws_word x (a +:+ String c b) Hx) as (p2 & ps2 & Hs2 & ->).
      rewrite Ha in Hs1. rewrite Hab in Hs2. simplify_eq.
      by exists (String x p1), ps1, ps2.
Qed.

Lemma elem_of_split_ws_join (a b : string) (c : ascii) (w : string) :
  is_space c = true → w ≠ EmptyString →
  w ∈ split_ws (a +:+ String c b) ↔ w ∈ split_ws a ∨ w ∈ split_ws b.
Proof.
  intros Hc Hw.
  destruct (split_ws_join_pieces a b c Hc) as (p & ps & qs & -> & -> & Hqs).
  rewrite !elem_of_cons, Hqs by done. naive_solver.
Qed.

(** X4: the words of two texts joined by a space are the words of the one
    and the words of the other; so the word set the related-card finder
    compares is the union of the word sets of the card's title and of its
    description, each as the template literal prints it. *)
Theorem extractWords_join (a b : string) (c : Card.t) :
  extractWords (Some (a +:+ " " +:+ b))
  = extractWords (Some a) ∪ extractWords (Some b) ∧
  words_of c
  = extractWords (Some (interpolate (Card.title c)))
    ∪ extractWords (Some (interpolate (Card.description c))).
Proof.
  assert (∀ x y : string,
            extractWords (Some (x +:+ " " +:+ y))
            = extractWords (Some x) ∪ extractWords (Some y)) as Hjoin.
  { intros x y. apply set_eq. intros w.
    rewrite elem_of_union, !elem_of_extractWords.
    unfold normalise, replace_non_word, toLowerCase.
    rewrite !string_map_append. cbn [string_map].
    rewrite !append_cons, !append_nil_l.
    change (lower_char " ") with " "%char.
    change (if is_word " " || is_space " " then " "%char else " "%char)
      with " "%char.
    destruct (decide (w = EmptyString)) as [->|Hw].
    { split; [by intros [_ ?]|by intros [[_ ?]|[_ ?]]]. }
    rewrite elem_of_split_ws_join by done. tauto. }
  split; apply Hjoin.
Qed.

End TokenizerMore.

(** ** Further properties of the date parser *)
Section DateParserMore.
Import JS Recommendations Spec.

Variable tza : Z.

Lemma end_of_day_after_Some (clock days r : Z) :
  end_of_day_after tza clock days = Some r →
  - maxTime ≤ clock ≤ maxTime ∧
  r = UTC tza (MakeDate (Day (LocalTime tza clock) + days) 86399999).
Proof.
  unfold end_of_day_after.
  destruct (TimeClip clock) as [t|] eqn:Ht; [|done].
  apply TimeClip_Some in Ht as [-> Hclock]. cbn [mbind option_bind].
  rewrite MakeDate_add_days.
  destruct (TimeClip (UTC tza _)) as [u|] eqn:Hu; [|done].
  apply TimeClip_Some in Hu as [-> _]. cbn [mbind option_bind].
  intros [-> _]%TimeClip_Some. split; [done|]. do 2 f_equal.
  unfold UTC, LocalTime.
  replace (clock + tza + days * msPerDay - tza + tza)
    with (clock + tza + days * msPerDay) by lia.
  rewrite <- MakeDate_add_days. apply Day_MakeDate, TimeWithinDay_range.
Qed.

Lemma end_of_day_local (day : Z) :
  Day (LocalTime tza (UTC tza (MakeDate day 86399999))) = day ∧
  TimeWithinDay (LocalTime tza (UTC tza (MakeDate day 86399999))) = 86399999.
Proof.
  assert (LocalTime tza (UTC tza (MakeDate day 86399999))
          = MakeDate day 86399999) as -> by (unfold LocalTime, UTC; lia).
  by apply Day_MakeDate.
Qed.

Lemma setHours_end_of_day_Some (d : Date) (r : Z) :
  setHours_end_of_day tza d = Some r →
  ∃ t, d = Some t ∧ r = UTC tza (MakeDate (Day (LocalTime tza t)) 86399999).
Proof.
  destruct d as [t|]; [|done]. cbn. intros [-> _]%TimeClip_Some. by exists t.
Qed.

Lemma digit_value_nonneg (c : ascii) : is_digit c = true → 0 ≤ digit_value c.
Proof.
  unfold is_digit, between, digit_value.
  rewrite andb_true_iff, !Nat.leb_le. lia.
Qed.

Lemma parseInt_from_nonneg (acc : Z) (s : string) :
  0 ≤ acc → string_forall is_digit s = true → 0 ≤ parseInt_from acc s.
Proof.
  revert acc. induction s as [|c s IH]; intros acc Hacc; [done|]. cbn.
  rewrite andb_true_iff. intros [Hc Hs]. apply IH; [|done].
  pose proof (digit_value_nonneg c Hc). lia.
Qed.

Lemma span_digits_spec (s : string) :
  let '(ds, rest) := span_digits s in
  s = ds +:+ rest ∧ string_forall is_digit ds = true ∧
  (∀ c rest', rest = String c rest' → is_digit c = false).
Proof.
  induction s as [|c s IH]; [done|]. cbn.
  destruct (is_digit c) eqn:Hc.
  - destruct (span_digits s) as [ds rest]. destruct IH as (-> & Hds & Hrest).
    split_and!; [done| |done]. cbn. by rewrite Hc, Hds.
  - split_and!; [done..|]. by intros ?? [= <- _].
Qed.

Lemma match_in_here_digits (unit s ds : string) :
  match_in_here unit s = Some ds →
  ds ≠ EmptyString ∧ string_forall is_digit ds = true.
Proof.
  unfold match_in_here. destruct (starts_with "in " s); [|done].
  pose proof (span_digits_spec (string_drop 3 s)) as Hspan.
  destruct (span_digits _) as [ds' rest]. destruct Hspan as (_ & Hds & _).
  destruct (truthy ds' && _) eqn:Hm; [|done]. intros [= <-].
  apply andb_true_iff in Hm as [Hne _]. split; [|done]. by intros ->.
Qed.

Lemma match_in_digits (unit s ds : string) :
  match_in unit s = Some ds →
  ds ≠ EmptyString ∧ string_forall is_digit ds = true.
Proof.
  induction s as [|c s IH]; [done|]. cbn [match_in].
  destruct (match_in_here unit (String c s)) eqn:Hhere; [|done].
  intros [= <-]. by apply match_in_here_digits in Hhere.
Qed.

Lemma captured_nonneg (unit lowerText : string) : 0 ≤ captured unit lowerText.
Proof.
  unfold captured. destruct (match_in unit lowerText) as [ds|] eqn:Hm; [|done].
  apply match_in_digits in Hm as [_ Hds]. by apply parseInt_from_nonneg.
Qed.

Lemma days_to_friday_range (clock : Z) : 1 ≤ days_to_friday tza clock ≤ 7.
Proof.
  unfold days_to_friday.
  pose proof (Z.mod_pos_bound (5 - WeekDay (LocalTime tza clock)) 7).
  destruct (Z.eqb_spec ((5 - WeekDay (LocalTime tza clock)) mod 7) 0); lia.
Qed.

Lemma february_length (y : Z) :
  28 ≤ days_from_civil y 3 - days_from_civil y 2 ≤ 31.
Proof.
  unfold days_from_civil, doy_of_month. cbn -[Z.div Z.mul Z.add Z.sub].
  change ((153 * (3 - 3) + 2) / 5) with 0.
  change ((153 * (2 + 9) + 2) / 5) with 337.
  set (e := y / 400). set (e' := (y - 1) / 400).
  assert (e' = e ∨ (e' = e - 1 ∧ y = 400 * e)) as Hee
    by (subst e e'; Z.div_mod_to_equations; lia).
  destruct Hee as [He|[He Hy]]; rewrite He.
  - set (z := y - e * 400).
    replace (y - 1 - e * 400) with (z - 1) by lia.
    clearbody z. Z.div_mod_to_equations. lia.
  - replace (y - e * 400) with 0 by lia.
    replace (y - 1 - (e - 1) * 400) with 399 by lia.
    change (0 / 4) with 0. change (0 / 100) with 0.
    change (399 / 4) with 99. change (399 / 100) with 3. lia.
Qed.

(** the first day of the next month is 28 to 31 days after the first day
    of a month *)
Lemma month_length (y m : Z) :
  1 ≤ m ≤ 12 →
  28 ≤ days_from_civil (y + m / 12) (m mod 12 + 1) - days_from_civil y m ≤ 31.
Proof.
  intros Hm.
  destruct (decide (m = 2)) as [->|Hfeb].
  { change (2 / 12) with 0. change (2 mod 12 + 1) with 3.
    rewrite Z.add_0_r. apply february_length. }
  destruct (decide (m = 12)) as [->|Hdec].
  { change (12 / 12) with 1. change (12 mod 12 + 1) with 1.
    unfold days_from_civil, doy_of_month. cbn -[Z.div Z.mul Z.add Z.sub].
    replace (y + 1 - 1) with y by lia.
    change ((153 * (1 + 9) + 2) / 5) with 306.
    change ((153 * (12 - 3) + 2) / 5) with 275. lia. }
  rewrite (Z.div_small m 12), (Z.mod_small m 12), Z.add_0_r by lia.
  unfold days_from_civil, doy_of_month.
  assert (m = 1 ∨ 3 ≤ m ≤ 11) as [->|Hmid] by lia.
  { change (1 + 1) with 2. cbn -[Z.div Z.mul Z.add Z.sub].
    change ((153 * (2 + 9) + 2) / 5) with 337.
    change ((153 * (1 + 9) + 2) / 5) with 306. lia. }
  rewrite (proj2 (Z.leb_gt m 2)), (proj2 (Z.leb_gt (m + 1) 2)),
          (proj2 (Z.ltb_lt 2 (m + 1))), (proj2 (Z.ltb_lt 2 m)) by lia.
  Z.div_mod_to_equations. lia.
Qed.

Lemma MonthFromTime_range (t : Z) : 0 ≤ MonthFromTime t ≤ 11.
Proof.
  unfold MonthFromTime, civil_from_days. cbn [fst snd].
  set (z := Day t + 719468). set (era := z / 146097).
  set (doe := z - era * 146097).
  assert (0 ≤ doe < 146097) as Hdoe.
  { subst doe era. pose proof (Z.div_mod z 146097).
    pose proof (Z.mod_pos_bound z 146097). lia. }
  destruct (year_of_era_bounds doe Hdoe) as [_ Hdoy].
  destruct (month_of_doy_spec (doy_of_doe doe) Hdoy) as [Hm _]. lia.
Qed.

(** [d.setMonth(d.getMonth() + 1)] moves the day by the length of the
    month of [d] *)
Lemma MakeDay_date_shift (y m d1 d2 : Z) :
  MakeDay y m d1 - MakeDay y m d2 = d1 - d2.
Proof. unfold MakeDay. lia. Qed.

Lemma MakeDay_month_length (y m : Z) :
  0 ≤ m ≤ 11 → 28 ≤ MakeDay y (m + 1) 1 - MakeDay y m 1 ≤ 31.
Proof.
  intros Hm. pose proof (month_length y (m + 1)) as Hlen. unfold MakeDay.
  rewrite (Z.div_small m 12), (Z.mod_small m 12), Z.add_0_r by lia. lia.
Qed.

(** [d.setMonth(d.getMonth() + 1)] moves the day by the length of the
    month of [d] *)
Lemma next_month_day_length (t : Z) :
  MakeDay (YearFromTime t) (MonthFromTime t + 1) (DateFromTime t) - Day t
  = MakeDay (YearFromTime t) (MonthFromTime t + 1) 1
    - MakeDay (YearFromTime t) (MonthFromTime t) 1.
Proof.
  pose proof (MakeDay_same_month t (DateFromTime t)) as Hsame.
  pose proof (MakeDay_date_shift (YearFromTime t) (MonthFromTime t + 1)
                (DateFromTime t) 1) as Hnext.
  pose proof (MakeDay_date_shift (YearFromTime t) (MonthFromTime t)
                (DateFromTime t) 1) as Hthis.
  lia.
Qed.

Lemma next_month_day (t : Z) :
  28 ≤ MakeDay (YearFromTime t) (MonthFromTime t + 1) (DateFromTime t) - Day t ≤ 31.
Proof.
  rewrite next_month_day_length.
  apply MakeDay_month_length, MonthFromTime_range.
Qed.

Lemma end_of_day_not_before (clock day : Z) :
  Day (LocalTime tza clock) ≤ day →
  clock ≤ UTC tza (MakeDate day 86399999).
Proof.
  intros Hday.
  pose proof (MakeDate_split (LocalTime tza clock)) as Hsplit.
  pose proof (TimeWithinDay_range (LocalTime tza clock)) as Hrange.
  unfold UTC, MakeDate, LocalTime, msPerDay in *. nia.
Qed.

Lemma next_month_unfold (t : Z) :
  setMonth tza (Some t) (num_add (getMonth tza (Some t)) (Some 1))
  = TimeClip (UTC tza (MakeDate (MakeDay (YearFromTime (LocalTime tza t))
                                         (MonthFromTime (LocalTime tza t) + 1)
                                         (DateFromTime (LocalTime tza t)))
                                (TimeWithinDay (LocalTime tza t)))).
Proof. reflexivity. Qed.

Lemma LocalTime_UTC (x : Z) : LocalTime tza (UTC tza x) = x.
Proof. unfold LocalTime, UTC. lia. Qed.

Lemma next_month_Some (clock r : Z) :
  setHours_end_of_day tza
    (setMonth tza (Date_now clock)
       (num_add (getMonth tza (Date_now clock)) (Some 1))) = Some r →
  - maxTime ≤ clock ≤ maxTime ∧
  r = UTC tza (MakeDate (MakeDay (YearFromTime (LocalTime tza clock))
                                 (MonthFromTime (LocalTime tza clock) + 1)
                                 (DateFromTime (LocalTime tza clock)))
                        86399999).
Proof.
  intros (t' & Hset & ->)%setHours_end_of_day_Some.
  unfold Date_now in Hset.
  destruct (TimeClip clock) as [t|] eqn:Ht; [|discriminate Hset].
  apply TimeClip_Some in Ht as [-> Hclock].
  rewrite next_month_unfold in Hset.
  apply TimeClip_Some in Hset as [-> _]. split; [exact Hclock|].
  rewrite LocalTime_UTC.
  by rewrite (proj1 (Day_MakeDate _ _ (TimeWithinDay_range (LocalTime tza clock)))).
Qed.

(** X5: every date the parser returns, unless it is an Invalid Date, is
    23:59:59.999 local time of the current local day or of a later one; it
    is never before the clock reading. *)
Theorem parseDateKeywords_end_of_day (clock : Z) (text : option string) (r : Z) :
  parseDateKeywords tza clock text = Some (Some r) →
  TimeWithinDay (LocalTime tza r) = 86399999 ∧
  Day (LocalTime tza clock) ≤ Day (LocalTime tza r) ∧
  clock ≤ r.
Proof.
  destruct text as [text|]; [|done].
  rewrite parseDateKeywords_parse_date. unfold parse_date.
  destruct (List.find _ rule_order) as [rule|]; [|done].
  cbn [fmap option_fmap option_map]. intros [= Hdate].
  assert (∃ day, Day (LocalTime tza clock) ≤ day ∧
                 r = UTC tza (MakeDate day 86399999)) as (day & Hday & ->).
  { assert (∀ days, 0 ≤ days → end_of_day_after tza clock days = Some r →
              ∃ day, Day (LocalTime tza clock) ≤ day ∧
                     r = UTC tza (MakeDate day 86399999)) as Hrel.
    { intros days Hdays [_ ->]%end_of_day_after_Some. eexists. split; [|done]. lia. }
    destruct rule; cbn [rule_date] in Hdate.
    - by apply (Hrel 0).
    - by apply (Hrel 1).
    - by apply (Hrel 7).
    - destruct (TimeClip clock); [|done]. cbn in Hdate.
      apply (Hrel (days_to_friday tza clock)); [|done].
      pose proof (days_to_friday_range clock). lia.
    - apply next_month_Some in Hdate as [_ ->]. eexists. split; [|done].
      pose proof (next_month_day (LocalTime tza clock)). lia.
    - apply (Hrel (captured "day" (toLowerCase text))); [|done].
      apply captured_nonneg.
    - apply (Hrel (7 * captured "week" (toLowerCase text))); [|done].
      pose proof (captured_nonneg "week" (toLowerCase text)). lia. }
  destruct (end_of_day_local day) as [-> ->].
  split_and!; [done..|]. by apply end_of_day_not_before.
Qed.

(** X6: "next month" gives the end of the local day that lies one length
    of the current month ahead, 28 to 31 days. *)
Theorem parseDateKeywords_next_month (clock : Z) (text : string) :
  let lowerText := toLowerCase text in
  includes lowerText "next month" = true →
  includes lowerText "today" = false →
  includes lowerText "tomorrow" = false →
  includes lowerText "next week" = false →
  includes lowerText "this week" || includes lowerText "end of week"
    || includes lowerText "eow" = false →
  - maxTime ≤ clock → clock + 32 * msPerDay ≤ maxTime →
  ∃ r L : Z,
    parseDateKeywords tza clock (Some text) = Some (Some r) ∧
    28 ≤ L ≤ 31 ∧
    Day (LocalTime tza r) = Day (LocalTime tza clock) + L ∧
    TimeWithinDay (LocalTime tza r) = 86399999 ∧
    L = MakeDay (YearFromTime (LocalTime tza clock))
                (MonthFromTime (LocalTime tza clock) + 1) 1
        - MakeDay (YearFromTime (LocalTime tza clock))
                  (MonthFromTime (LocalTime tza clock)) 1.
Proof.
  cbn zeta. intros Hmonth Htoday Htomorrow Hnext Hweek Hlo Hhi.
  set (t := LocalTime tza clock).
  pose proof (next_month_day t) as Hlen.
  pose proof (next_month_day_length t) as Hlength.
  set (day := MakeDay (YearFromTime t) (MonthFromTime t + 1) (DateFromTime t)) in *.
  exists (UTC tza (MakeDate day 86399999)), (day - Day t).
  destruct (end_of_day_local day) as [-> ->].
  split; [|split; [exact Hlen|split; [lia|split; [reflexivity|exact Hlength]]]].
  rewrite parseDateKeywords_parse_date. unfold parse_date.
  rewrite (find_at_index _ _ 4%nat next_month); [|reflexivity|exact Hmonth|].
  - cbn [fmap option_fmap option_map rule_date]. do 2 f_equal.
    unfold Date_now.
    assert (- maxTime ≤ clock ≤ maxTime) as Hclock
      by (assert (0 < msPerDay) by done; lia).
    rewrite (proj2 (TimeClip_Some clock clock) (conj eq_refl Hclock)).
    rewrite next_month_unfold. fold t. fold day.
    pose proof (MakeDate_split t) as Hsplit.
    pose proof (TimeWithinDay_range t) as Htw.
    assert (t = clock + tza) as Ht by reflexivity.
    assert (msPerDay = 86400000) as Hms by reflexivity.
    assert (maxTime = 8640000000000000) as Hmax by reflexivity.
    set (w := TimeWithinDay t) in *. set (d := Day t) in *.
    clearbody day w d t.
    assert (- maxTime ≤ UTC tza (MakeDate day w) ≤ maxTime) as Hrange
      by (unfold UTC, MakeDate in *; nia).
    rewrite (proj2 (TimeClip_Some _ _) (conj eq_refl Hrange)).
    unfold setHours_end_of_day. cbn [mbind option_bind].
    rewrite LocalTime_UTC.
    rewrite (proj1 (Day_MakeDate day w Htw)).
    apply TimeClip_Some. split; [reflexivity|].
    unfold UTC, MakeDate in *. nia.
  - intros [|[|[|[|j]]]] earlier Hj Hearlier; [| | | |lia];
      injection Hearlier as <-; cbn [rule_matches]; assumption.
Qed.

(** X7: when "in N days" is the first rule that matches, N is the decimal
    value of a non-empty run of digits; the result is the end of the local
    day N days ahead when N + 1 days after the clock reading still lie in
    the range of time values, and an Invalid Date when N days after the
    clock reading lie beyond it. *)
Theorem parseDateKeywords_in_days (clock : Z) (text ds : string) :
  let lowerText := toLowerCase text in
  let N := parseInt ds in
  match_in "day" lowerText = Some ds →
  includes lowerText "today" = false →
  includes lowerText "tomorrow" = false →
  includes lowerText "next week" = false →
  includes lowerText "this week" || includes lowerText "end of week"
    || includes lowerText "eow" = false →
  includes lowerText "next month" = false →
  0 ≤ N ∧ ds ≠ EmptyString ∧ string_forall is_digit ds = true ∧
  (- maxTime ≤ clock → clock + (N + 1) * msPerDay ≤ maxTime →
   parseDateKeywords tza clock (Some text)
   = Some (Some (UTC tza (MakeDate (Day (LocalTime tza clock) + N) 86399999)))) ∧
  (- maxTime ≤ clock ≤ maxTime → maxTime < clock + N * msPerDay →
   parseDateKeywords tza clock (Some text) = Some None).
Proof.
  cbn zeta. intros Hmatch Htoday Htomorrow Hnext Hweek Hmonth.
  destruct (match_in_digits _ _ _ Hmatch) as [Hne Hdigits].
  assert (0 ≤ parseInt ds) as HN by by apply parseInt_from_nonneg.
  assert (parseDateKeywords tza clock (Some text)
          = Some (end_of_day_after tza clock (parseInt ds))) as ->.
  { rewrite parseDateKeywords_parse_date. unfold parse_date.
    rewrite (find_at_index _ _ 5%nat in_days); [|done| |].
    - cbn [fmap option_fmap option_map rule_date]. unfold captured.
      by rewrite Hmatch.
    - cbn [rule_matches]. rewrite Hmatch. by apply bool_decide_eq_true_2.
    - intros [|[|[|[|[|j]]]]] earlier Hj Hearlier; [| | | | |lia];
        by injection Hearlier as <-. }
  split_and!; [done..| |].
  - intros Hlo Hhi. by rewrite end_of_day_after_value.
  - intros Hclock Hover. f_equal. unfold end_of_day_after.
    rewrite (proj2 (TimeClip_Some clock clock)) by done.
    cbn [mbind option_bind]. rewrite MakeDate_add_days.
    assert (UTC tza (LocalTime tza clock + parseInt ds * msPerDay)
            = clock + parseInt ds * msPerDay) as ->
      by (unfold UTC, LocalTime; lia).
    unfold TimeClip. rewrite (proj2 (Z.leb_gt _ _)); [done|]. lia.
Qed.

End DateParserMore.

(** ** The regular expressions of the date parser *)
Section DateRegex.
Import JS Recommendations Spec.

Lemma starts_with_spec (p s : string) :
  starts_with p s = true ↔ ∃ post, s = p +:+ post.
Proof.
  revert s. induction p as [|a p IH]; intros s.
  - split; [|done]. intros _. by exists s.
  - destruct s as [|b s]; cbn.
    + split; [done|]. by intros [post Hpost].
    + rewrite andb_true_iff, bool_decide_eq_true, IH. split.
      * intros [-> [post ->]]. by exists post.
      * intros [post Hpost]. rewrite append_cons in Hpost.
        injection Hpost as -> ->. split; [done|]. by exists post.
Qed.

Lemma includes_spec (s sub : string) :
  includes s sub = true ↔ ∃ pre post, s = pre +:+ sub +:+ post.
Proof.
  induction s as [|c s IH]; cbn; rewrite orb_true_iff, starts_with_spec.
  - split.
    + intros [[post Hpost]|?]; [|done]. by exists EmptyString, post.
    + intros ([|??] & post & Hpost); [|done]. left. by exists post.
  - rewrite IH. split.
    + intros [[post Hpost]|(pre & post & ->)].
      * by exists EmptyString, post.
      * by exists (String c pre), post.
    + intros ([|x pre] & post & Hpost).
      * left. by exists post.
      * rewrite append_cons in Hpost. injection Hpost as -> ->.
        right. by exists pre, post.
Qed.

Lemma span_digits_append (ds rest : string) :
  string_forall is_digit ds = true →
  (∀ c rest', rest = String c rest' → is_digit c = false) →
  span_digits (ds +:+ rest) = (ds, rest).
Proof.
  intros Hds Hrest. induction ds as [|d ds IH].
  - rewrite append_nil_l. destruct rest as [|c rest']; [done|]. cbn.
    by rewrite (Hrest c rest').
  - cbn in Hds. apply andb_true_iff in Hds as [Hd Hds].
    rewrite append_cons. cbn. by rewrite Hd, IH.
Qed.

Lemma match_in_here_spec (unit s ds : string) :
  match_in_here unit s = Some ds ↔
  ds ≠ EmptyString ∧ string_forall is_digit ds = true ∧
  ∃ post, s = "in " +:+ ds +:+ " " +:+ unit +:+ post.
Proof.
  split.
  - intros Hhere. destruct (match_in_here_digits _ _ _ Hhere) as [Hne Hds].
    split_and!; [done..|]. revert Hhere. unfold match_in_here.
    destruct (starts_with "in " s) eqn:Hin; [|done].
    apply starts_with_spec in Hin as [s1 ->].
    change (string_drop 3 ("in " +:+ s1)) with s1.
    pose proof (span_digits_spec s1) as Hspan.
    destruct (span_digits s1) as [ds' rest]. destruct Hspan as (-> & _ & _).
    destruct (truthy ds' && starts_with (" " +:+ unit) rest) eqn:Hm; [|done].
    intros [= ->]. apply andb_true_iff in Hm as [_ Hrest].
    apply starts_with_spec in Hrest as [post ->]. exists post.
    by rewrite !append_assoc.
  - intros (Hne & Hds & post & ->). unfold match_in_here.
    change (starts_with "in " ("in " +:+ ds +:+ " " +:+ unit +:+ post)) with true.
    change (string_drop 3 ("in " +:+ ds +:+ " " +:+ unit +:+ post))
      with (ds +:+ " " +:+ unit +:+ post).
    rewrite span_digits_append; [|done|].
    + assert (truthy ds = true) as -> by by destruct ds.
      assert (starts_with (" " +:+ unit) (" " +:+ unit +:+ post) = true) as ->.
      { apply starts_with_spec. exists post. by rewrite append_assoc. }
      done.
    + intros c rest' Hrest. rewrite append_cons in Hrest. by injection Hrest as <- _.
Qed.

Lemma match_in_Some (unit s ds : string) :
  match_in unit s = Some ds →
  ∃ pre post, s = pre +:+ "in " +:+ ds +:+ " " +:+ unit +:+ post.
Proof.
  induction s as [|c s IH]; [done|]. cbn [match_in].
  destruct (match_in_here unit (String c s)) as [ds'|] eqn:Hhere.
  - intros [= ->]. apply match_in_here_spec in Hhere as (_ & _ & post & ->).
    by exists EmptyString, post.
  - intros (pre & post & ->)%IH. by exists (String c pre), post.
Qed.

Lemma match_in_complete (unit pre ds post : string) :
  ds ≠ EmptyString → string_forall is_digit ds = true →
  is_Some (match_in unit (pre +:+ "in " +:+ ds +:+ " " +:+ unit +:+ post)).
Proof.
  intros Hne Hds. induction pre as [|c pre IH].
  - rewrite append_nil_l.
    assert (match_in_here unit ("in " +:+ ds +:+ " " +:+ unit +:+ post) = Some ds)
      as Hhere by (apply match_in_here_spec; eauto).
    change (match_in unit ("in " +:+ ds +:+ " " +:+ unit +:+ post))
      with (match match_in_here unit ("in " +:+ ds +:+ " " +:+ unit +:+ post) with
            | Some ds0 => Some ds0
            | None => match_in unit ("n " +:+ ds +:+ " " +:+ unit +:+ post)
            end).
    by rewrite Hhere.
  - rewrite append_cons. cbn [match_in]. by destruct (match_in_here _ _).
Qed.

(** X8: [/in (\d+) days?/] (and its "weeks" twin) matches a text exactly
    when the text contains "in ", a non-empty run of decimal digits, a
    space and the unit; the capture is such a run of digits of the text. *)
Theorem match_in_spec (unit s : string) :
  (∀ ds, match_in unit s = Some ds →
     ds ≠ EmptyString ∧ string_forall is_digit ds = true ∧
     includes s ("in " +:+ ds +:+ " " +:+ unit) = true) ∧
  (is_Some (match_in unit s) ↔
     ∃ ds, ds ≠ EmptyString ∧ string_forall is_digit ds = true ∧
           includes s ("in " +:+ ds +:+ " " +:+ unit) = true).
Proof.
  assert (∀ ds, match_in unit s = Some ds →
     ds ≠ EmptyString ∧ string_forall is_digit ds = true ∧
     includes s ("in " +:+ ds +:+ " " +:+ unit) = true) as Hsound.
  { intros ds Hm. destruct (match_in_digits _ _ _ Hm) as [Hne Hds].
    split_and!; [done..|]. apply includes_spec.
    destruct (match_in_Some _ _ _ Hm) as (pre & post & ->).
    exists pre, post. by rewrite !append_assoc. }
  split; [done|]. split.
  - intros [ds Hm]. exists ds. by apply Hsound.
  - intros (ds & Hne & Hds & (pre & post & ->)%includes_spec).
    rewrite !append_assoc. by apply match_in_complete.
Qed.

End DateRegex.

(** ** The reason given with a date *)
Section DateReason.
Import JS Recommendations Spec DateReasons.

Variable tza : Z.

Lemma mentioned_not_fallback (x : string) :
  "Mentioned " +:+ x ≠ "Based on card content".
Proof. rewrite append_cons. discriminate. Qed.

Ltac split_rules lowerText :=
  destruct (includes lowerText "today") eqn:Htoday;
  destruct (includes lowerText "tomorrow") eqn:Htomorrow;
  destruct (includes lowerText "next week") eqn:Hnext;
  destruct (includes lowerText "this week") eqn:Hthis;
  destruct (includes lowerText "end of week") eqn:Hend;
  destruct (includes lowerText "eow") eqn:Heow;
  destruct (includes lowerText "next month") eqn:Hmonth;
  destruct (match_in "day" lowerText) as [days|] eqn:Hdays;
  destruct (match_in "week" lowerText) as [weeks|] eqn:Hweeks;
  cbn [orb andb bool_decide decide_rel is_Some_dec option_rect default id].

(** X9: the reason names the rule that gave the date, unless the text
    has both "today" and "tomorrow", or the rule matched through "eow"
    alone; a dated suggestion gets the reason "Based on card content" only
    through "eow". *)
Theorem extractDateReason_agrees (clock : Z) (text : string) :
  let lowerText := toLowerCase text in
  (∀ r, List.find (rule_matches lowerText) rule_order = Some r →
     includes lowerText "today" && includes lowerText "tomorrow" = false →
     (r = end_of_week →
      includes lowerText "this week" || includes lowerText "end of week" = true) →
     extractDateReason (Some text) = rule_reason lowerText r) ∧
  (is_Some (parseDateKeywords tza clock (Some text)) →
   extractDateReason (Some text) = "Based on card content" →
   includes lowerText "eow" = true).
Proof.
  cbn zeta. rewrite parseDateKeywords_parse_date. unfold parse_date.
  unfold extractDateReason, rule_order.
  cbn [from_option List.find rule_matches].
  set (lowerText := toLowerCase text).
  split.
  - intros r. split_rules lowerText; intros Hr Hboth Heow_only;
      first [ discriminate Hr | discriminate Hboth
            | injection Hr as <-;
              first [ reflexivity
                    | by specialize (Heow_only eq_refl)
                    | cbn [rule_reason]; rewrite ?Hdays, ?Hweeks; reflexivity ] ].
  - split_rules lowerText; intros Hsome Hreason;
      first [ reflexivity | by apply mentioned_not_fallback in Hreason
            | by destruct Hsome ].
Qed.

(** X10: for a text with both "today" and "tomorrow" the date is the end
    of today, and the reason given with it says "tomorrow". *)
Theorem extractDateReason_today_tomorrow (clock : Z) (text : string) :
  let lowerText := toLowerCase text in
  includes lowerText "today" = true → includes lowerText "tomorrow" = true →
  parseDateKeywords tza clock (Some text) = Some (end_of_day_after tza clock 0) ∧
  extractDateReason (Some text) = "Mentioned " +:+ quoted "tomorrow".
Proof.
  cbn zeta. intros Htoday Htomorrow. split.
  - rewrite parseDateKeywords_parse_date. unfold parse_date.
    by rewrite (find_at_index _ _ 0%nat today); [| | |lia].
  - unfold extractDateReason. cbn [from_option]. by rewrite Htomorrow.
Qed.

End DateReason.

(** ** Further properties of the related-card finder *)
Section RelatedCardsMore.
Import JS Recommendations Spec.

Lemma StronglySorted_filter {A} (R : A → A → Prop) (P : A → Prop)
    `{!∀ x, Decision (P x)} (l : list A) :
  StronglySorted R l → StronglySorted R (filter P l).
Proof.
  induction l as [|x l IH]; [done|].
  rewrite StronglySorted_cons. intros [Hx Hl]. rewrite filter_cons.
  destruct (decide (P x)); [|by apply IH].
  apply StronglySorted_cons. split; [|by apply IH].
  apply Forall_forall. intros y [_ Hy]%list_elem_of_filter.
  by apply (proj1 (Forall_forall _ _) Hx).
Qed.

Lemma filter_comm {A} (P Q : A → Prop)
    `{!∀ x, Decision (P x), !∀ x, Decision (Q x)} (l : list A) :
  filter P (filter Q l) = filter Q (filter P l).
Proof.
  rewrite !list_filter_filter. apply list_filter_iff. naive_solver.
Qed.

(** sorting and dropping commute, the sort being stable *)
Lemma sort_filter (P : RelatedCard → Prop) `{!∀ x, Decision (P x)}
    (l : list RelatedCard) :
  sort by_similarity_desc (filter P l) = filter P (sort by_similarity_desc l).
Proof.
  apply (ranking_unique (filter P l)); [apply sort_ranking|].
  split_and!.
  - by rewrite sort_perm.
  - apply StronglySorted_filter, sort_sorted.
  - intros q. by rewrite filter_comm, sort_stable, filter_comm.
Qed.

Lemma candidates_length (c : Card.t) (allCards : list Card.t) (threshold : Qc) :
  (length (candidates c allCards threshold) ≤ length allCards)%nat.
Proof.
  unfold candidates.
  etrans; [apply length_filter|]. rewrite length_fmap. apply length_filter.
Qed.

(** with a limit that cannot bite, nothing is cut *)
Lemma findRelatedCards_unlimited (c : Card.t) (allCards : list Card.t)
    (limit : Z) (threshold : Qc) :
  Z.of_nat (length allCards) ≤ limit →
  findRelatedCards c allCards limit threshold
  = if decide (words_of c = ∅) then []
    else sort by_similarity_desc (candidates c allCards threshold).
Proof.
  intros Hlimit. rewrite findRelatedCards_unfold. case_decide; [done|].
  unfold slice0. rewrite (proj2 (Z.leb_le 0 limit)) by lia.
  apply take_ge. rewrite sort_perm.
  pose proof (candidates_length c allCards threshold). lia.
Qed.

Lemma elem_of_candidates_2 (c o : Card.t) (allCards : list Card.t) (threshold : Qc) :
  o ∈ allCards → Card._id o ≠ Card._id c →
  (threshold ≤ jaccardSimilarity (words_of c) (words_of o))%Qc →
  {| card := summary_of o;
     similarity := jaccardSimilarity (words_of c) (words_of o) |}
  ∈ candidates c allCards threshold.
Proof.
  intros Ho Hid Hth. unfold candidates.
  apply list_elem_of_filter. split; [done|].
  apply list_elem_of_fmap. exists o. split; [done|].
  by apply list_elem_of_filter.
Qed.

(** X11: being related is symmetric. With a threshold above 0 and a limit
    that cannot bite, a card found for a target has the target among its
    own related cards, with the same score. *)
Theorem findRelatedCards_symmetric (c : Card.t) (allCards : list Card.t)
    (limit : Z) (threshold : Qc) (r : RelatedCard) :
  (0 < threshold)%Qc → Z.of_nat (length allCards) ≤ limit → c ∈ allCards →
  r ∈ findRelatedCards c allCards limit threshold →
  ∃ o r',
    o ∈ allCards ∧ card r = summary_of o ∧
    r' ∈ findRelatedCards o allCards limit threshold ∧
    card r' = summary_of c ∧ similarity r' = similarity r.
Proof.
  intros Hpos Hlimit Hc.
  rewrite !findRelatedCards_unlimited by done.
  case_decide as Hwords; [by intros ?%elem_of_nil|].
  rewrite sort_perm.
  intros (Hid & Hth & o & Ho & Hcard & Hsim)%elem_of_candidates.
  exists o, {| card := summary_of c;
               similarity := jaccardSimilarity (words_of o) (words_of c) |}.
  rewrite Hcard in Hid. cbn in Hid.
  assert (words_of o ≠ ∅) as Ho_words.
  { intros Hempty. rewrite Hsim, Hempty, jaccardSimilarity_comm,
      jaccardSimilarity_empty_l in Hth. by apply Qcle_not_lt in Hth. }
  split_and!; [done..| |done|].
  - rewrite findRelatedCards_unlimited, decide_False, sort_perm by done.
    apply elem_of_candidates_2; [done..|].
    by rewrite jaccardSimilarity_comm, <- Hsim.
  - cbn. by rewrite Hsim, jaccardSimilarity_comm.
Qed.

(** X12: raising the threshold only removes results: with a limit that
    cannot bite, the result for the higher threshold is the result for the
    lower one without the cards below the higher threshold, in the same
    order. *)
Theorem findRelatedCards_threshold_mono (c : Card.t) (allCards : list Card.t)
    (limit : Z) (threshold threshold' : Qc) :
  Z.of_nat (length allCards) ≤ limit → (threshold ≤ threshold')%Qc →
  findRelatedCards c allCards limit threshold'
  = filter (λ r, (threshold' ≤ similarity r)%Qc)
           (findRelatedCards c allCards limit threshold).
Proof.
  intros Hlimit Hle. rewrite !findRelatedCards_unlimited by done.
  case_decide; [done|]. rewrite <- sort_filter. f_equal.
  unfold candidates. rewrite list_filter_filter_l; [done|].
  intros x Hx. by etrans.
Qed.

(** X13: raising the limit only appends results: the result for a limit
    is a prefix of the result for any larger limit, and limit 0 gives
    nothing. *)
Theorem findRelatedCards_limit_mono (c : Card.t) (allCards : list Card.t)
    (limit limit' : Z) (threshold : Qc) :
  0 ≤ limit ≤ limit' →
  findRelatedCards c allCards limit threshold
    `prefix_of` findRelatedCards c allCards limit' threshold ∧
  findRelatedCards c allCards 0 threshold = [].
Proof.
  intros Hlimit. rewrite !findRelatedCards_unfold.
  case_decide; [done|]. unfold slice0.
  rewrite (proj2 (Z.leb_le 0 limit)), (proj2 (Z.leb_le 0 limit')) by lia.
  split; [|done].
  replace (Z.to_nat limit) with (Z.to_nat limit `min` Z.to_nat limit')%nat by lia.
  rewrite <- take_take. apply prefix_take.
Qed.

(** X14: no score is above 1, so a threshold above 1 gives nothing; and a
    card with another id and the same non-empty word set as the target is
    found with score 1 whenever the threshold is at most 1 and the limit
    cannot bite. *)
Theorem findRelatedCards_scores (c : Card.t) (allCards : list Card.t)
    (limit : Z) (threshold : Qc) :
  (∀ r, r ∈ findRelatedCards c allCards limit threshold →
        (similarity r ≤ 1)%Qc) ∧
  ((1 < threshold)%Qc → findRelatedCards c allCards limit threshold = []) ∧
  (∀ o, o ∈ allCards → Card._id o ≠ Card._id c →
        words_of o = words_of c → words_of c ≠ ∅ →
        (threshold ≤ 1)%Qc → Z.of_nat (length allCards) ≤ limit →
        {| card := summary_of o; similarity := 1%Qc |}
        ∈ findRelatedCards c allCards limit threshold).
Proof.
  assert (∀ r, r ∈ findRelatedCards c allCards limit threshold →
               (threshold ≤ similarity r)%Qc ∧ (similarity r ≤ 1)%Qc) as Hrange.
  { intros r. rewrite findRelatedCards_unfold.
    case_decide; [by intros ?%elem_of_nil|].
    intros Hr%elem_of_slice0. rewrite sort_perm in Hr.
    apply elem_of_candidates in Hr as (_ & Hth & o & _ & _ & Hsim).
    split; [done|]. rewrite Hsim. apply jaccardSimilarity_range. }
  split_and!.
  - intros r Hr. by apply Hrange.
  - intros Hth.
    destruct (findRelatedCards c allCards limit threshold) as [|r l] eqn:Hres;
      [done|].
    destruct (Hrange r) as [H1 H2]; [by left|].
    exfalso. apply (Qclt_not_le _ _ Hth). by etrans.
  - intros o Ho Hid Hsame Hwords Hth Hlimit.
    rewrite findRelatedCards_unlimited, decide_False, sort_perm by done.
    assert (jaccardSimilarity (words_of c) (words_of o) = 1%Qc) as Hone
      by (rewrite Hsame; by apply jaccardSimilarity_same).
    rewrite <- Hone. apply elem_of_candidates_2; [done..|]. by rewrite Hone.
Qed.

End RelatedCardsMore.

(** ** Further properties of the Gemini adapter *)
Section GeminiMore.
Import JS Recommendations Gemini Spec.

Lemma from_first_open_complete (pre rest : string) :
  no_char open_brace pre →
  from_first_open (pre +:+ String open_brace rest) = Some (String open_brace rest).
Proof.
  unfold no_char. induction pre as [|c pre IH]; intros Hpre.
  - rewrite append_nil_l. cbn. by rewrite bool_decide_eq_true_2.
  - cbn in Hpre. apply andb_true_iff in Hpre as [Hc Hpre].
    rewrite append_cons. cbn [from_first_open].
    apply negb_true_iff in Hc. rewrite Hc. by apply IH.
Qed.

Lemma up_to_last_close_complete (x post : string) :
  no_char close_brace post →
  up_to_last_close (x +:+ String close_brace post)
  = Some (x +:+ String close_brace EmptyString).
Proof.
  intros Hpost. induction x as [|a x IH].
  - rewrite !append_nil_l. cbn [up_to_last_close].
    rewrite (proj2 (up_to_last_close_None post) Hpost).
    by rewrite bool_decide_eq_true_2.
  - rewrite !append_cons. cbn [up_to_last_close]. by rewrite IH.
Qed.

Lemma from_first_open_suffix (pre rest : string) :
  ∃ y, from_first_open (pre +:+ String open_brace rest)
       = Some (y +:+ String open_brace rest).
Proof.
  induction pre as [|c pre [y IH]].
  - exists EmptyString. rewrite !append_nil_l. cbn. by rewrite bool_decide_eq_true_2.
  - rewrite append_cons. cbn [from_first_open]. case_bool_decide.
    + exists (String c pre). by rewrite append_cons.
    + by exists y.
Qed.

Lemma no_char_append (x : ascii) (a b : string) :
  no_char x (a +:+ b) ↔ no_char x a ∧ no_char x b.
Proof. unfold no_char. by rewrite string_forall_append, andb_true_iff. Qed.

Variable JSON : Type.
Variable JSON_parse : string → option JSON.
Variable GEMINI_API_KEY : option string.
Variable generateContent : string → Response.

(** X15: a reply has a block to parse whenever a closing brace follows
    an opening brace somewhere in it. When no opening brace comes before
    the block and no closing brace after it, the block is what is parsed:
    text around a single JSON object, a Markdown fence for one, is dropped,
    and the adapter returns what [JSON.parse] makes of the object, or null
    when it does not parse. *)
Theorem match_json_complete (pre body post : string) :
  let block := String open_brace body +:+ String close_brace EmptyString in
  let text := pre +:+ block +:+ post in
  is_Some (match_json text) ∧
  (no_char open_brace pre → no_char close_brace post →
   match_json text = Some block ∧
   (key_missing GEMINI_API_KEY = false →
    ∀ c boardLists boardCards,
      generateContent (build_prompt c boardLists boardCards)
      = Resolved (Some text) →
      getAISuggestions JSON JSON_parse GEMINI_API_KEY generateContent
        c boardLists boardCards
      = Return (JSON_parse block))).
Proof.
  cbn zeta.
  assert (pre +:+ (String open_brace body +:+ String close_brace EmptyString)
              +:+ post
          = pre +:+ String open_brace (body +:+ String close_brace post))
    as Htext.
  { by rewrite append_assoc, !append_cons, append_nil_l. }
  rewrite Htext. split.
  - unfold match_json.
    destruct (from_first_open_suffix pre (body +:+ String close_brace post))
      as [y Hy].
    rewrite Hy. cbn [mbind option_bind].
    destruct (up_to_last_close _) as [p|] eqn:Hp; [done|].
    apply up_to_last_close_None in Hp.
    rewrite no_char_append in Hp. destruct Hp as [_ Hp].
    rewrite <- append_cons in Hp.
    rewrite no_char_append in Hp. destruct Hp as [_ Hclose].
    unfold no_char in Hclose. cbn in Hclose.
    by rewrite bool_decide_eq_true_2 in Hclose.
  - intros Hpre Hpost.
    assert (match_json
              (pre +:+ String open_brace (body +:+ String close_brace post))
            = Some (String open_brace body +:+ String close_brace EmptyString))
      as Hmatch.
    { unfold match_json.
      rewrite from_first_open_complete by done. cbn [mbind option_bind].
      rewrite <- append_cons.
      by rewrite (up_to_last_close_complete (String open_brace body) post). }
    split; [done|]. intros Hkey c boardLists boardCards Hanswer.
    unfold getAISuggestions, getAISuggestions_body.
    rewrite Hkey, Hanswer. cbn [bind try_catch]. rewrite Hmatch.
    by destruct (JSON_parse _).
Qed.

End GeminiMore.

(** ** Properties of the request handlers *)
Section HandlersMore.
Import JS Recommendations Gemini Controllers.

Variable JSON : Type.
Variable Board_findById : string → Async (option Board.t).
Variable Card_findById : string → Async (option CardDoc.t).
Variable find_cards_and_lists : string → Async (list Card.t * list BoardList.t).
Variable tza : Z.
Variable clock_title clock_description : Z.

Lemma some_member_true (members : list Member.t) (userId : string) :
  some_member members userId = Fulfilled true →
  ∃ m, m ∈ members ∧ Member.user m = Some userId.
Proof.
  induction members as [|m rest IH]; [done|]. cbn [some_member].
  destruct (Member.user m) as [u|] eqn:Hu; [|done].
  destruct (String.eqb u userId) eqn:Heq.
  - apply String.eqb_eq in Heq as ->. intros _. exists m. split; [left|done].
  - intros H. destruct (IH H) as (m' & Hin & Hm'). exists m'. split; [by right|done].
Qed.

Lemma some_member_false (members : list Member.t) (userId : string) :
  some_member members userId = Fulfilled false ↔
  ∀ m, m ∈ members → ∃ u, Member.user m = Some u ∧ u ≠ userId.
Proof.
  induction members as [|m rest IH]; cbn [some_member].
  - split; [|done]. intros _ m Hm. by apply elem_of_nil in Hm.
  - destruct (Member.user m) as [u|] eqn:Hu.
    + destruct (String.eqb u userId) eqn:Heq.
      * apply String.eqb_eq in Heq as ->. split; [done|].
        intros H. destruct (H m) as (u & Hu' & Hne); [left|]. congruence.
      * apply String.eqb_neq in Heq. rewrite IH. split.
        -- intros H m' [->|Hin]%elem_of_cons; [by exists u|by apply H].
        -- intros H m' Hin. apply H. by right.
    + split; [done|]. intros H. destruct (H m) as (u & Hu' & _); [left|]. congruence.
Qed.

Lemma some_member_total (members : list Member.t) (userId : string) :
  (∀ m, m ∈ members → is_Some (Member.user m)) →
  ∃ isMember, some_member members userId = Fulfilled isMember ∧
    ((∃ m, m ∈ members ∧ Member.user m = Some userId) → isMember = true).
Proof.
  intros Hall. destruct (some_member members userId) as [[]|kind] eqn:Hsome.
  - by exists true.
  - exists false. split; [done|]. intros (m & Hin & Hm).
    destruct (proj1 (some_member_false _ _) Hsome m Hin) as (u & Hu & Hne).
    congruence.
  - exfalso. induction members as [|m rest IH]; [done|]. cbn [some_member] in Hsome.
    destruct (Hall m) as [u Hu]; [left|]. rewrite Hu in Hsome.
    destruct (String.eqb u userId); [done|].
    apply IH; [|done]. intros m' Hin. apply Hall. by right.
Qed.

Lemma some_member_failed (members : list Member.t) (userId : string)
    (kind : option string) :
  some_member members userId = Failed kind →
  kind = None ∧ ∃ m, m ∈ members ∧ Member.user m = None.
Proof.
  induction members as [|m rest IH]; [done|]. cbn [some_member].
  destruct (Member.user m) as [u|] eqn:Hu.
  - destruct (String.eqb u userId); [done|]. intros H.
    destruct (IH H) as (-> & m' & Hin & Hm'). split; [done|].
    exists m'. split; [by right|done].
  - intros [= <-]. split; [done|]. exists m. split; [left|done].
Qed.

(** X16: [checkBoardAccess] grants access only on a board that exists, and
    only to its owner or to a user listed among its members; the board it
    hands back is the one looked up. A missing board is refused with
    'Board not found'; on a board whose member entries all have a user,
    the owner and the members are granted access and everybody else is
    refused with 'Not authorized to access this board'. A rejected lookup
    is passed on, and a member entry without a user makes the check throw
    for everybody who is not listed among the members, the owner
    included. *)
Theorem checkBoardAccess_spec (boardId userId : string) :
  let listed (b : Board.t) :=
    ∃ m, m ∈ Board.members b ∧ Member.user m = Some userId in
  (∀ a, checkBoardAccess Board_findById boardId userId = Fulfilled a →
     if hasAccess a
     then ∃ b, Board_findById boardId = Fulfilled (Some b) ∧ board a = Some b ∧
               error a = None ∧ (Board.owner b = userId ∨ listed b)
     else board a = None ∧
          ((Board_findById boardId = Fulfilled None ∧
            error a = Some "Board not found") ∨
           (∃ b, Board_findById boardId = Fulfilled (Some b) ∧
                 Board.owner b ≠ userId ∧ ¬ listed b ∧
                 error a = Some "Not authorized to access this board"))) ∧
  (Board_findById boardId = Fulfilled None →
   checkBoardAccess Board_findById boardId userId
   = Fulfilled {| hasAccess := false; error := Some "Board not found";
                  board := None |}) ∧
  (∀ kind, Board_findById boardId = Failed kind →
   checkBoardAccess Board_findById boardId userId = Failed kind) ∧
  (∀ b, Board_findById boardId = Fulfilled (Some b) →
     ((∀ m, m ∈ Board.members b → is_Some (Member.user m)) →
      (Board.owner b = userId ∨ listed b) →
      checkBoardAccess Board_findById boardId userId
      = Fulfilled {| hasAccess := true; error := None; board := Some b |}) ∧
     ((∀ m, m ∈ Board.members b → is_Some (Member.user m)) →
      Board.owner b ≠ userId → ¬ listed b →
      checkBoardAccess Board_findById boardId userId
      = Fulfilled {| hasAccess := false;
                     error := Some "Not authorized to access this board";
                     board := None |}) ∧
     (¬ listed b → (∃ m, m ∈ Board.members b ∧ Member.user m = None) →
      checkBoardAccess Board_findById boardId userId = Failed None)).
Proof.
  cbn zeta. split_and!.
  - intros a. unfold checkBoardAccess.
    destruct (Board_findById boardId) as [[b|]|kind] eqn:Hfind; cbn [await];
      [| |done].
    + destruct (some_member (Board.members b) userId) as [isMember|kind]
        eqn:Hsome; cbn [await]; [|done].
      destruct isMember; cbn [negb andb].
      * intros [= <-]. cbn. exists b. split_and!; try done.
        right. by apply some_member_true.
      * destruct (String.eqb (Board.owner b) userId) eqn:Howner; cbn [negb].
        -- apply String.eqb_eq in Howner. intros [= <-]. cbn.
           exists b. split_and!; try done. by left.
        -- apply String.eqb_neq in Howner. intros [= <-]. cbn.
           split; [done|]. right. exists b. split_and!; try done.
           intros (m & Hin & Hm).
           destruct (proj1 (some_member_false _ _) Hsome m Hin) as (u & Hu & Hne).
           congruence.
    + intros [= <-]. cbn. split; [done|]. by left.
  - intros Hfind. unfold checkBoardAccess. by rewrite Hfind.
  - intros kind Hfind. unfold checkBoardAccess. by rewrite Hfind.
  - intros b Hfind. unfold checkBoardAccess. rewrite Hfind. cbn [await].
    split_and!.
    + intros Hall Hgranted.
      destruct (some_member_total (Board.members b) userId Hall)
        as (isMember & -> & Hlisted). cbn [await].
      destruct Hgranted as [Howner|Hin].
      * apply String.eqb_eq in Howner. rewrite Howner.
        by rewrite andb_false_r.
      * by rewrite (Hlisted Hin).
    + intros Hall Howner Hnot.
      assert (some_member (Board.members b) userId = Fulfilled false) as ->.
      { apply some_member_false. intros m Hin.
        destruct (Hall m Hin) as [u Hu]. exists u. split; [done|].
        intros ->. apply Hnot. by exists m. }
      cbn [await negb andb].
      apply String.eqb_neq in Howner. by rewrite Howner.
    + intros Hnot (m & Hin & Hm).
      destruct (some_member (Board.members b) userId) as [[]|kind] eqn:Hsome.
      * by apply some_member_true in Hsome.
      * destruct (proj1 (some_member_false _ _) Hsome m Hin) as (u & Hu & _).
        congruence.
      * by apply some_member_failed in Hsome as [-> _].
Qed.

Lemma checkBoardAccess_granted (boardId userId : string) (a : Access) :
  checkBoardAccess Board_findById boardId userId = Fulfilled a →
  hasAccess a = true →
  ∃ b, Board_findById boardId = Fulfilled (Some b) ∧
       (Board.owner b = userId ∨
        ∃ m, m ∈ Board.members b ∧ Member.user m = Some userId).
Proof.
  unfold checkBoardAccess.
  destruct (Board_findById boardId) as [[b|]|kind] eqn:Hfind; cbn [await];
    [| |done].
  - destruct (some_member (Board.members b) userId) as [isMember|kind]
      eqn:Hsome; cbn [await]; [|done].
    destruct isMember; cbn [negb andb].
    + intros _ _. exists b. split; [done|]. right. by apply some_member_true.
    + destruct (String.eqb (Board.owner b) userId) eqn:Howner; cbn [negb].
      * apply String.eqb_eq in Howner. intros _ _. exists b. split; [done|]. by left.
      * by intros [= <-].
  - by intros [= <-].
Qed.

Lemma checkBoardAccess_refused (boardId userId : string) (a : Access) :
  checkBoardAccess Board_findById boardId userId = Fulfilled a →
  hasAccess a = false → ∃ message, error a = Some message.
Proof.
  unfold checkBoardAccess.
  destruct (Board_findById boardId) as [[b|]|kind]; cbn [await]; [| |done].
  - destruct (some_member (Board.members b) userId) as [isMember|kind];
      cbn [await]; [|done].
    destruct (negb isMember && negb (String.eqb (Board.owner b) userId));
      intros [= <-]; [by eexists|done].
  - intros [= <-]. by eexists.
Qed.

Section Service.
Variable JSON_parse : string → option JSON.
Variable prop : JSON → string → option JSON.
Variable GEMINI_API_KEY : option string.
Variable generateContent : string → Gemini.Response.

Let handler :=
  getCardRecommendations JSON Board_findById Card_findById find_cards_and_lists
    tza clock_title clock_description JSON_parse prop GEMINI_API_KEY
    generateContent.

(** X17: the card controller answers 200 only for a card that exists, on
    a board that exists, to the owner or a listed member of that board; the
    answer then names that card and carries [analyzeCard] of it over the
    board's cards and lists. Every other answer is 403, 404 or 500 with a
    message and no card data. *)
Theorem getCardRecommendations_authorized (id userId : string) :
  (status (handler id userId) = 200 →
   ∃ card b boardCards boardLists aiInsights,
     Card_findById id = Fulfilled (Some card) ∧
     Board_findById (CardDoc.board card) = Fulfilled (Some b) ∧
     (Board.owner b = userId ∨
      ∃ m, m ∈ Board.members b ∧ Member.user m = Some userId) ∧
     find_cards_and_lists (CardDoc.board card)
     = Fulfilled (boardCards, boardLists) ∧
     body (handler id userId)
     = CardRecommendations (Card._id (CardDoc.toObject card))
         (Card.title (CardDoc.toObject card))
         (analyzeCard tza clock_title clock_description
            (CardDoc.toObject card) boardCards boardLists)
         aiInsights) ∧
  (status (handler id userId) ≠ 200 →
   status (handler id userId) ∈ [403; 404; 500] ∧
   ∃ message, body (handler id userId) = Message (Some message)).
Proof.
  unfold handler, getCardRecommendations.
  destruct (Card_findById id) as [[card|]|kind] eqn:Hcard; cbn [await].
  - destruct (checkBoardAccess Board_findById (CardDoc.board card) userId)
      as [a|kind] eqn:Haccess; cbn [await].
    + destruct (hasAccess a) eqn:Hhas; cbn [negb].
      * destruct (checkBoardAccess_granted _ _ _ Haccess Hhas) as (b & Hb & Hwho).
        destruct (find_cards_and_lists (CardDoc.board card))
          as [[boardCards boardLists]|kind] eqn:Hfind; cbn [await or_catch].
        -- split; [|done]. intros _. by eexists card, b, boardCards, boardLists, _.
        -- case_bool_decide; cbn; (split; [done|]); intros _;
             (split; [set_solver|by eexists]).
      * cbn [or_catch status body]. split; [done|]. intros _.
        split; [set_solver|].
        destruct (checkBoardAccess_refused _ _ _ Haccess Hhas) as [message ->].
        by eexists.
    + cbn [or_catch]. case_bool_decide; cbn; (split; [done|]); intros _;
        (split; [set_solver|by eexists]).
  - cbn. split; [done|]. intros _. split; [set_solver|by eexists].
  - cbn [or_catch]. case_bool_decide; cbn; (split; [done|]); intros _;
      (split; [set_solver|by eexists]).
Qed.

End Service.

(** X18: what the Gemini service does changes nothing of the answer but
    its [aiInsights] field: status, card and rule-based recommendations are
    the same whatever the key, the service and the parser are. Without a
    key, or when the service call is rejected, the answer is the rule-based
    one with [aiInsights] null. *)
Theorem getCardRecommendations_ai_independent
    (JSON_parse JSON_parse' : string → option JSON)
    (prop prop' : JSON → string → option JSON)
    (GEMINI_API_KEY GEMINI_API_KEY' : option string)
    (generateContent generateContent' : string → Gemini.Response)
    (id userId : string) :
  let answer :=
    getCardRecommendations JSON Board_findById Card_findById
      find_cards_and_lists tza clock_title clock_description
      JSON_parse prop GEMINI_API_KEY generateContent id userId in
  let answer' :=
    getCardRecommendations JSON Board_findById Card_findById
      find_cards_and_lists tza clock_title clock_description
      JSON_parse' prop' GEMINI_API_KEY' generateContent' id userId in
  without_aiInsights answer = without_aiInsights answer' ∧
  status answer = status answer' ∧
  (key_missing GEMINI_API_KEY = true ∨
   (∀ prompt, ∃ e, generateContent prompt = Rejected e) →
   answer = without_aiInsights answer).
Proof.
  cbn zeta. unfold getCardRecommendations.
  destruct (Card_findById id) as [[card|]|kind]; cbn [await];
    [|done|cbn [or_catch]; by case_bool_decide].
  destruct (checkBoardAccess Board_findById (CardDoc.board card) userId)
    as [a|kind]; cbn [await]; [|cbn [or_catch]; by case_bool_decide].
  destruct (hasAccess a); cbn [negb]; [|done].
  destruct (find_cards_and_lists (CardDoc.board card))
    as [[boardCards boardLists]|kind]; cbn [await];
    [|cbn [or_catch]; by case_bool_decide].
  cbn [or_catch]. split_and!; [done..|].
  intros Hdown. unfold without_aiInsights. cbn [body status]. do 2 f_equal.
  unfold getCardInsights, getAISuggestions, getAISuggestions_body.
  destruct Hdown as [->|Hdown]; [done|].
  destruct (key_missing GEMINI_API_KEY); [done|].
  by destruct (Hdown (build_prompt (CardDoc.toObject card) boardLists boardCards))
    as [e ->].
Qed.

(** X19: the board controller's recommendation route never answers with
    recommendations: the handler calls [checkBoardAccess], which its module
    neither declares nor imports, so every request ends in the handler's
    catch clause with 500 'Server error'. *)
Theorem getCardRecommendationsInBoard_fails (boardId cardId userId : string) :
  getCardRecommendationsInBoard JSON Card_findById find_cards_and_lists
    tza clock_title clock_description boardId cardId userId
  = respond 500 (Message (Some "Server error")).
Proof. reflexivity. Qed.

End HandlersMore.

(** ** What every analysis satisfies *)
Section OrchestratorMore.
Import JS Recommendations Spec.
Variable tza : Z.
Variables clock_title clock_description : Z.

Lemma suggestListMovement_list (c : Card.t) (allLists : list BoardList.t)
    (s : ListSuggestion) :
  suggestListMovement c allLists = Some s →
  ∃ l, l ∈ allLists ∧ BoardList._id l ≠ Card.list c ∧
       listId s = BoardList._id l ∧ listTitle s = BoardList.title l.
Proof.
  destruct allLists as [|l0 allLists]; [done|].
  rewrite suggestListMovement_cons, scan_patterns_Some.
  intros (i & pattern & _ & Hyields & _).
  apply try_pattern_yields in Hyields
    as (_ & l & (before & after & Hsplit & _) & Hne & ->).
  exists l. split_and!; [|done..]. rewrite Hsplit. set_solver.
Qed.

Lemma slice0_length {A} (limit : Z) (l : list A) :
  0 ≤ limit → (length (slice0 limit l) ≤ Z.to_nat limit)%nat.
Proof.
  intros Hlimit. unfold slice0. rewrite (proj2 (Z.leb_le 0 limit)) by done.
  rewrite length_take. lia.
Qed.

Lemma slice0_sorted (limit : Z) (l : list RelatedCard) :
  StronglySorted descending l → StronglySorted descending (slice0 limit l).
Proof.
  intros Hsorted. unfold slice0.
  assert (∀ n, StronglySorted descending (take n l)) as Htake.
  { intros n. rewrite <- (take_drop n l) in Hsorted.
    by apply StronglySorted_app_1_l in Hsorted. }
  destruct (0 <=? limit); apply Htake.
Qed.

(** X20: whatever the card and the board, an analysis holds at most two
    date suggestions, at most one for the title and one for the
    description, the title's first; a list suggestion names a list of the
    board other than the card's; there are at most five related cards,
    in descending order of score, each the summary of another card of the
    board with a score between the default threshold 0.2 and 1. *)
Theorem analyzeCard_bounds (c : Card.t) (boardCards : list Card.t)
    (boardLists : list BoardList.t) :
  let analysis :=
    analyzeCard tza clock_title clock_description c boardCards boardLists in
  (source <$> suggestedDueDates analysis)
    ∈ [ []; [from_title]; [from_description]; [from_title; from_description] ] ∧
  (∀ s, suggestedListMovement analysis = Some s →
     ∃ l, l ∈ boardLists ∧ BoardList._id l ≠ Card.list c ∧
          listId s = BoardList._id l ∧ listTitle s = BoardList.title l) ∧
  (length (relatedCards analysis) ≤ 5)%nat ∧
  StronglySorted descending (relatedCards analysis) ∧
  (∀ r, r ∈ relatedCards analysis →
     (Q2Qc (1 # 5) ≤ similarity r)%Qc ∧ (similarity r ≤ 1)%Qc ∧
     ∃ o, o ∈ boardCards ∧ Card._id o ≠ Card._id c ∧ card r = summary_of o).
Proof.
  cbn zeta. unfold analyzeCard. cbn [suggestedDueDates suggestedListMovement relatedCards].
  split_and!.
  - unfold title_suggestion, description_suggestion.
    destruct (parseDateKeywords tza clock_title _) as [t|],
             (parseDateKeywords tza clock_description _) as [d|]; cbn;
      try destruct (num_neq _ _); cbn; set_solver.
  - apply suggestListMovement_list.
  - rewrite findRelatedCards_unfold. case_decide; [cbn; lia|].
    apply (slice0_length 5). lia.
  - rewrite findRelatedCards_unfold. case_decide; [constructor|].
    apply slice0_sorted, sort_sorted.
  - intros r. rewrite findRelatedCards_unfold. case_decide; [by intros ?%elem_of_nil|].
    intros Hr%elem_of_slice0. rewrite sort_perm in Hr.
    apply elem_of_candidates in Hr as (Hid & Hth & o & Ho & Hcard & Hsim).
    split_and!; [done| |].
    + rewrite Hsim. apply jaccardSimilarity_range.
    + exists o. split_and!; [done| |done]. rewrite Hcard in Hid. done.
Qed.

End OrchestratorMore.

(** ** The further properties, run on the examples *)

(** two texts without a common word *)
Lemma jaccardSimilarity_zero_iff_witness :
  Recommendations.jaccardSimilarity
    (Recommendations.extractWords (Some "fix login page"))
    (Recommendations.extractWords (Some "write report")) = 0%Qc.
Proof.
  apply (proj2 (jaccardSimilarity_zero_iff _ _)).
  apply (bool_decide_unpack _). vm_compute. exact I.
Defined.

(** two texts with the same words *)
Lemma jaccardSimilarity_one_iff_witness :
  Recommendations.jaccardSimilarity
    (Recommendations.extractWords (Some "Fix the login page"))
    (Recommendations.extractWords (Some "login page fix")) = 1%Qc.
Proof.
  apply (proj2 (jaccardSimilarity_one_iff _ _)).
  split; apply (bool_decide_unpack _); vm_compute; exact I.
Defined.

Lemma extractWords_case_insensitive_witness :
  Recommendations.extractWords (Some "Fix LOGIN Page")
  = Recommendations.extractWords (Some "fix login page").
Proof.
  apply (proj1 (extractWords_case_insensitive _ _)). vm_compute. reflexivity.
Defined.

(** "tomorrow" read on Wednesday 15 November 2023 local time: the end of
    Thursday 16 November *)
Lemma parseDateKeywords_end_of_day_witness :
  Recommendations.parseDateKeywords Scenarios.tza Examples.clock
    (Some "Ship it tomorrow") = Some (Some 1700159399999) ∧
  JS.TimeWithinDay (JS.LocalTime Scenarios.tza 1700159399999) = 86399999 ∧
  JS.Day (JS.LocalTime Scenarios.tza Examples.clock)
    ≤ JS.Day (JS.LocalTime Scenarios.tza 1700159399999) ∧
  Examples.clock ≤ 1700159399999.
Proof.
  assert (Recommendations.parseDateKeywords Scenarios.tza Examples.clock
            (Some "Ship it tomorrow") = Some (Some 1700159399999)) as Hrun
    by (vm_compute; reflexivity).
  split; [exact Hrun|].
  exact (parseDateKeywords_end_of_day _ _ _ _ Hrun).
Defined.

(** November has 30 days *)
Lemma parseDateKeywords_next_month_witness :
  ∃ r L : Z,
    Recommendations.parseDateKeywords Scenarios.tza Examples.clock
      (Some "Review the budget next month") = Some (Some r) ∧
    JS.Day (JS.LocalTime Scenarios.tza r)
    = JS.Day (JS.LocalTime Scenarios.tza Examples.clock) + L ∧
    L = 30.
Proof.
  destruct (parseDateKeywords_next_month Scenarios.tza Examples.clock
              "Review the budget next month")
    as (r & L & Hrun & _ & Hday & _ & HL).
  - vm_compute. reflexivity.
  - vm_compute. reflexivity.
  - vm_compute. reflexivity.
  - vm_compute. reflexivity.
  - vm_compute. reflexivity.
  - vm_compute. discriminate.
  - vm_compute. discriminate.
  - exists r, L. split_and!; [exact Hrun|exact Hday|].
    rewrite HL. vm_compute. reflexivity.
Defined.

(** three days ahead, and a number of days that leaves the range of dates *)
Lemma parseDateKeywords_in_days_witness :
  Recommendations.parseDateKeywords Scenarios.tza Examples.clock
    (Some "Ship it in 3 days")
  = Some (Some (JS.UTC Scenarios.tza
                  (JS.MakeDate
                     (JS.Day (JS.LocalTime Scenarios.tza Examples.clock) + 3)
                     86399999))) ∧
  Recommendations.parseDateKeywords Scenarios.tza Examples.clock
    (Some "Ship it in 99999999999 days")
  = Some None.
Proof.
  split.
  - destruct (parseDateKeywords_in_days Scenarios.tza Examples.clock
                "Ship it in 3 days" "3") as (_ & _ & _ & Hin & _).
    + vm_compute. reflexivity.
    + vm_compute. reflexivity.
    + vm_compute. reflexivity.
    + vm_compute. reflexivity.
    + vm_compute. reflexivity.
    + vm_compute. reflexivity.
    + apply Hin; vm_compute; discriminate.
  - destruct (parseDateKeywords_in_days Scenarios.tza Examples.clock
                "Ship it in 99999999999 days" "99999999999")
      as (_ & _ & _ & _ & Hout).
    + vm_compute. reflexivity.
    + vm_compute. reflexivity.
    + vm_compute. reflexivity.
    + vm_compute. reflexivity.
    + vm_compute. reflexivity.
    + vm_compute. reflexivity.
    + apply Hout.
      * split.
        -- vm_compute. discriminate.
        -- vm_compute. discriminate.
      * vm_compute. reflexivity.
Defined.

Lemma match_in_spec_witness :
  is_Some (JS.match_in "day" "ship it in 12 days") ∧
  JS.includes "ship it in 12 days" "in 12 day" = true.
Proof.
  assert (is_Some (JS.match_in "day" "ship it in 12 days")) as Hmatch.
  { apply (proj2 (match_in_spec "day" "ship it in 12 days")).
    exists "12". split_and!; [discriminate|reflexivity|reflexivity]. }
  split; [exact Hmatch|].
  destruct Hmatch as [ds Hds].
  destruct (proj1 (match_in_spec "day" "ship it in 12 days") ds Hds)
    as (_ & _ & Hin).
  vm_compute in Hds. injection Hds as <-. exact Hin.
Defined.

(** the reason of "next week", and a date found through "eow" alone *)
Lemma extractDateReason_agrees_witness :
  Recommendations.extractDateReason (Some "Finish by next week")
  = DateReasons.rule_reason (JS.toLowerCase "Finish by next week") Spec.next_week ∧
  JS.includes (JS.toLowerCase "EOW deadline") "eow" = true.
Proof.
  split.
  - apply (proj1 (extractDateReason_agrees 0 Examples.clock "Finish by next week")).
    + vm_compute. reflexivity.
    + vm_compute. reflexivity.
    + discriminate.
  - apply (proj2 (extractDateReason_agrees 0 Examples.clock "EOW deadline")).
    + vm_compute. by eexists.
    + vm_compute. reflexivity.
Defined.

Lemma extractDateReason_today_tomorrow_witness :
  Recommendations.parseDateKeywords 0 Examples.clock
    (Some "Start today, ship tomorrow")
  = Some (Spec.end_of_day_after 0 Examples.clock 0) ∧
  Recommendations.extractDateReason (Some "Start today, ship tomorrow")
  = "Mentioned " +:+ Recommendations.quoted "tomorrow".
Proof.
  apply (extractDateReason_today_tomorrow 0 Examples.clock
           "Start today, ship tomorrow").
  - vm_compute. reflexivity.
  - vm_compute. reflexivity.
Defined.

(** the first card related to the report has the report among its own *)
Lemma findRelatedCards_symmetric_witness :
  ∃ r o r',
    head (Recommendations.findRelatedCards Examples.report Scenarios.reports 5
            Recommendations.default_threshold) = Some r ∧
    o ∈ Scenarios.reports ∧
    Recommendations.card r = Recommendations.summary_of o ∧
    r' ∈ Recommendations.findRelatedCards o Scenarios.reports 5
           Recommendations.default_threshold ∧
    Recommendations.card r' = Recommendations.summary_of Examples.report ∧
    Recommendations.similarity r' = Recommendations.similarity r.
Proof.
  destruct (Recommendations.findRelatedCards Examples.report Scenarios.reports 5
              Recommendations.default_threshold) as [|r rest] eqn:Hfound.
  { vm_compute in Hfound. discriminate Hfound. }
  destruct (findRelatedCards_symmetric Examples.report Scenarios.reports 5
              Recommendations.default_threshold r)
    as (o & r' & Ho & Hcard & Hr' & Hcard' & Hsim).
  - vm_compute. reflexivity.
  - vm_compute. discriminate.
  - apply list_elem_of_here.
  - rewrite Hfound. apply list_elem_of_here.
  - exists r, o, r'.
    exact (conj eq_refl (conj Ho (conj Hcard (conj Hr' (conj Hcard' Hsim))))).
Defined.

Lemma findRelatedCards_threshold_mono_witness :
  Recommendations.findRelatedCards Examples.report Scenarios.reports 5
    (Q2Qc (1 # 2))
  = filter (λ r, (Q2Qc (1 # 2) ≤ Recommendations.similarity r)%Qc)
      (Recommendations.findRelatedCards Examples.report Scenarios.reports 5
         Recommendations.default_threshold).
Proof.
  apply (findRelatedCards_threshold_mono Examples.report Scenarios.reports 5
           Recommendations.default_threshold (Q2Qc (1 # 2))).
  - vm_compute. discriminate.
  - vm_compute. discriminate.
Defined.

Lemma findRelatedCards_limit_mono_witness :
  Recommendations.findRelatedCards Examples.report Scenarios.reports 1
    Recommendations.default_threshold
  `prefix_of` Recommendations.findRelatedCards Examples.report Scenarios.reports 5
                Recommendations.default_threshold.
Proof.
  apply (findRelatedCards_limit_mono Examples.report Scenarios.reports 1 5
           Recommendations.default_threshold).
  split; vm_compute; discriminate.
Defined.

(** the copy of the report is found with score 1 *)
Lemma findRelatedCards_scores_witness :
  {| Recommendations.card := Recommendations.summary_of Examples.report_copy;
     Recommendations.similarity := 1%Qc |}
  ∈ Recommendations.findRelatedCards Examples.report Scenarios.reports 5
      Recommendations.default_threshold.
Proof.
  apply (proj2 (proj2 (findRelatedCards_scores Examples.report Scenarios.reports 5
                         Recommendations.default_threshold))).
  - right. left.
  - discriminate.
  - apply (bool_decide_unpack _). vm_compute. exact I.
  - apply (bool_decide_unpack _). vm_compute. exact I.
  - vm_compute. discriminate.
  - vm_compute. discriminate.
Defined.

(** a reply that puts the object between two sentences *)
Lemma match_json_complete_witness :
  Gemini.match_json "Here you are: {} I hope it helps." = Some "{}" ∧
  Gemini.getAISuggestions unit Examples.parse_empty_object (Some "k")
    (Examples.answer "Here you are: {} I hope it helps.")
    Examples.milk Examples.lists []
  = Gemini.Return (Some ()).
Proof.
  destruct (proj2 (match_json_complete unit Examples.parse_empty_object
                     (Some "k")
                     (Examples.answer "Here you are: {} I hope it helps.")
                     "Here you are: " EmptyString " I hope it helps."))
    as [Hmatch Hrun].
  - vm_compute. reflexivity.
  - vm_compute. reflexivity.
  - split; [exact Hmatch|].
    apply (Hrun eq_refl Examples.milk Examples.lists []). reflexivity.
Defined.

(** bob is a member of ann's board and carl is not; there is no board
    b9; on the board with a member entry without a user the check throws
    for ann herself *)
Lemma checkBoardAccess_spec_witness :
  Controllers.checkBoardAccess Scenarios.boards "b1" "bob"
  = Controllers.Fulfilled
      {| Controllers.hasAccess := true; Controllers.error := None;
         Controllers.board := Some Scenarios.team |} ∧
  Controllers.checkBoardAccess Scenarios.boards "b1" "carl"
  = Controllers.Fulfilled
      {| Controllers.hasAccess := false;
         Controllers.error := Some "Not authorized to access this board";
         Controllers.board := None |} ∧
  Controllers.checkBoardAccess Scenarios.boards "b9" "ann"
  = Controllers.Fulfilled
      {| Controllers.hasAccess := false;
         Controllers.error := Some "Board not found";
         Controllers.board := None |} ∧
  Controllers.checkBoardAccess Scenarios.boards "b2" "ann"
  = Controllers.Failed None.
Proof.
  split_and!.
  - destruct (checkBoardAccess_spec Scenarios.boards "b1" "bob")
      as (_ & _ & _ & Hfound).
    apply (proj1 (Hfound Scenarios.team eq_refl)).
    + intros m ->%list_elem_of_singleton. by eexists.
    + right. eexists. split; [left|reflexivity].
  - destruct (checkBoardAccess_spec Scenarios.boards "b1" "carl")
      as (_ & _ & _ & Hfound).
    apply (proj1 (proj2 (Hfound Scenarios.team eq_refl))).
    + intros m ->%list_elem_of_singleton. by eexists.
    + discriminate.
    + intros (m & ->%list_elem_of_singleton & Hm). discriminate Hm.
  - destruct (checkBoardAccess_spec Scenarios.boards "b9" "ann")
      as (_ & Hmissing & _).
    apply Hmissing. reflexivity.
  - destruct (checkBoardAccess_spec Scenarios.boards "b2" "ann")
      as (_ & _ & _ & Hfound).
    apply (proj2 (proj2 (Hfound Scenarios.broken eq_refl))).
    + intros (m & ->%list_elem_of_singleton & Hm). discriminate Hm.
    + eexists. split; [left|reflexivity].
Defined.

(** bob gets the recommendations for the card of ann's board *)
Lemma getCardRecommendations_authorized_witness :
  ∃ card b,
    Scenarios.cards "c1" = Controllers.Fulfilled (Some card) ∧
    Scenarios.boards (Controllers.CardDoc.board card)
    = Controllers.Fulfilled (Some b) ∧
    (Controllers.Board.owner b = "bob" ∨
     ∃ m, m ∈ Controllers.Board.members b ∧
          Controllers.Member.user m = Some "bob").
Proof.
  destruct (proj1 (getCardRecommendations_authorized unit Scenarios.boards
                     Scenarios.cards Scenarios.cards_and_lists Scenarios.tza
                     Examples.clock Examples.clock Examples.parse_empty_object
                     Examples.no_prop None Scenarios.down "c1" "bob"))
    as (card & b & _ & _ & _ & Hcard & Hboard & Hwho & _).
  - vm_compute. reflexivity.
  - by exists card, b.
Defined.

(** with the service down the answer has no insights *)
Lemma getCardRecommendations_ai_independent_witness :
  Scenarios.recommend (Some "k") Scenarios.down "c1" "bob"
  = Controllers.without_aiInsights
      (Scenarios.recommend (Some "k") Scenarios.down "c1" "bob").
Proof.
  apply (proj2 (proj2 (getCardRecommendations_ai_independent unit
                         Scenarios.boards Scenarios.cards
                         Scenarios.cards_and_lists Scenarios.tza
                         Examples.clock Examples.clock
                         Examples.parse_empty_object Examples.parse_empty_object
                         Examples.no_prop Examples.no_prop
                         (Some "k") None Scenarios.down Scenarios.down
                         "c1" "bob"))).
  right. intros prompt. by eexists.
Defined.
